(** * EthGetLogsInvariants: the eth_getLogs index checker of cmd/rpctest

    A shallow embedding of [EthGetLogsInvariants] and of its local closure
    [noDuplicates] (cmd/rpctest/rpctest/bench_ethgetlogs.go, lines 147-267),
    and the properties of the range driver and of the per-block checker.

    What the embedding takes from outside the file it models:
    - [reqGen.Erigon] (the JSON-RPC round trip) is a variable of the section
      [Checker]: a function from the request to what the call leaves in
      [res.Err], [resp.Error] and [resp.Result].  Every call is taken to
      store a result of its own in [resp.Result]; the slice that the [range]
      statement of line 203 walks is the one the unfiltered call returned.
    - the [select] of lines 250-256 is a second variable: the case that the
      runtime picks when the iteration of block [bn] reaches it.
    - [slices.Sort] is a sort in ascending order; the sorted permutation of a
      list of unsigned integers is unique ([slices_Sort_unique]). *)

From Stdlib Require Import ZArith NArith List String Lia.
From stdpp Require Import base decidable option numbers list sorting gmap.

#[local] Set Warnings "-clear-no-such-hyp".

Local Open Scope Z_scope.

(** ** Data model *)

(** [common.Address] (20 bytes) and [common.Hash] (32 bytes), read as
    unsigned numbers: the checker only compares them and uses them as keys. *)
Abbreviation Address := N.
Abbreviation Hash := N.

(** The fields of [Log] that the checker reads.  [Index] is a
    [hexutil.Uint]; [uint64(logs[i].Index)] keeps its value. *)
Record Log : Type := mkLog {
  log_Address : Address;
  log_Topics : list Hash;
  log_Index : N
}.

(** [EthError]: the error member of a JSON-RPC response. *)
Record EthError : Type := mkEthError {
  Code : Z;
  Message : string
}.

(** [ctx.Err()] once the context is done. *)
Inductive CtxErr : Type := Canceled | DeadlineExceeded.

(** The errors the function builds, one constructor per [fmt.Errorf] format
    string; the arguments are the values the format string prints. *)
Inductive error : Type :=
| ErrCouldNotGetBlockNumber (e : string)      (* "Could not get block number: %v\n" *)
| ErrGettingBlockNumber (code : Z) (msg : string)
                                              (* "Error getting block number: %d %s\n" *)
| ErrCouldNotGet (e : string)                 (* "Could not get modified accounts (Erigon): %v\n" *)
| ErrGetting (code : Z) (msg : string)        (* "Error getting modified accounts (Erigon): %d %s\n" *)
| ErrDuplicated (idx : N)                     (* "duplicated log_index %d" *)
| ErrAtBlock (bn : Z) (w : error)             (* "eth_getLogs: at blockNum=%d %w" *)
| ErrAtBlockAddr (bn : Z) (a : Address) (w : error)
                                              (* "eth_getLogs: at blockNum=%d and addr %x %w" *)
| ErrAtBlockTopic (bn : Z) (t : Hash) (w : error)
                                              (* "eth_getLogs: at blockNum=%d and topic %x %w" *)
| ErrAccountNotIndexed (bn : Z) (a : Address) (* "eth_getLogs: at blockNum=%d account %x not indexed" *)
| ErrTopicNotIndexed (bn : Z) (a : Address) (t : Hash)
                                              (* "eth_getLogs: at blockNum=%d account %x, topic %x not indexed" *)
| ErrCtx (e : CtxErr).                        (* ctx.Err() *)

(** The block number an error message prints, if it prints one. *)
Definition error_blockNum (e : error) : option Z :=
  match e with
  | ErrAtBlock bn _ | ErrAtBlockAddr bn _ _ | ErrAtBlockTopic bn _ _
  | ErrAccountNotIndexed bn _ | ErrTopicNotIndexed bn _ _ => Some bn
  | _ => None
  end.

(** The request bodies of [RequestGenerator] that the function sends. *)
Inductive Request : Type :=
| blockNumber
| getLogsNoFilters (from to : Z)
| getLogs (from to : Z) (a : Address)
| getLogs1 (from to : Z) (a : Address) (t : Hash).

#[global] Instance Request_eq_dec : EqDecision Request.
Proof. solve_decision. Defined.

(** What one call of [reqGen.Erigon(method, body, &resp)] leaves behind:
    [res.Err], [resp.Error] and [resp.Result]. *)
Record Reply : Type := mkReply {
  Err : option string;
  Error : option EthError;
  Result : list Log
}.

(** The case taken by the [select] statement of lines 250-256. *)
Inductive SelectCase : Type :=
| CaseLogEvery            (* <-logEvery.C : log.Info *)
| CaseDone (e : CtxErr)   (* <-ctx.Done() : return ctx.Err() *)
| CaseDefault.

(** ** [noDuplicates] (lines 164-179) *)

Definition uint64_modulus : Z := 2 ^ 64.

(** [slices.Sort(indices)] *)
Definition slices_Sort (indices : list N) : list N := merge_sort N.le indices.

(** The loop of lines 173-177: [i] runs from 1 while [i < len(logs)] and
    compares [indices[i-1]] with [indices[i]]; walking the list, the head is
    [indices[i-1]] and the head of the tail is [indices[i]]. *)
Fixpoint scanIndices (indices : list N) : option error :=
  match indices with
  | a :: (b :: _) as rest =>
      if N.eqb a b then Some (ErrDuplicated b) else scanIndices rest
  | _ => None
  end.

(** [noDuplicates]: [None] is the [nil] error. *)
Definition noDuplicates (logs : list Log) : option error :=
  if (length logs <=? 1)%nat then None
  else
    let indices := slices_Sort (map log_Index logs) in
    scanIndices indices.

(** *** The same closure, statement by statement

    The closure over a frame that holds its two slices: [logs], the argument,
    and [indices], the local variable.  A read out of range is a panic
    ([None]). *)
Record Frame : Type := mkFrame {
  fr_logs : list Log;
  fr_indices : list N
}.

(** Lines 169-171: [indices = append(indices, uint64(logs[i].Index))] for [i]
    from its start value; [todo] is the number of iterations left. *)
Fixpoint appendLoop (todo i : nat) (f : Frame) : option Frame :=
  match todo with
  | O => Some f
  | S todo' =>
      match fr_logs f !! i with
      | Some l =>
          appendLoop todo' (S i) (mkFrame (fr_logs f) (fr_indices f ++ [log_Index l]))
      | None => None
      end
  end.

(** Lines 173-177, by index. *)
Fixpoint compareLoop (todo i : nat) (f : Frame) : option (option error) :=
  match todo with
  | O => Some None
  | S todo' =>
      match fr_indices f !! (i - 1)%nat, fr_indices f !! i with
      | Some a, Some b =>
          if N.eqb a b then Some (Some (ErrDuplicated b))
          else compareLoop todo' (S i) f
      | _, _ => None
      end
  end.

(** The closure on the frame of its call: the error it returns and the frame
    at the return. *)
Definition noDuplicates_run (logs : list Log) : option (option error * Frame) :=
  let f := mkFrame logs [] in
  if (length (fr_logs f) <=? 1)%nat then Some (None, f)
  else
    match appendLoop (length (fr_logs f)) 0 f with
    | None => None
    | Some f =>
        let f := mkFrame (fr_logs f) (slices_Sort (fr_indices f)) in
        match compareLoop (length (fr_logs f) - 1) 1 f with
        | None => None
        | Some err => Some (err, f)
        end
    end.

(** [d] is at two positions of [l]. *)
Definition repeated (d : N) (l : list N) : Prop :=
  ∃ i j : nat, i ≠ j ∧ l !! i = Some d ∧ l !! j = Some d.

(** ** Outcomes and the trace of RPC calls *)

(** How a run ends: with a value, with an error, or still running when the
    fuel of the outer loop is used up. *)
Inductive Outcome (A : Type) : Type :=
| Done (a : A)
| Failed (e : error)
| Running.
Arguments Done {A} a.
Arguments Failed {A} e.
Arguments Running {A}.

(** A computation: its outcome and the requests it has sent, in order. *)
Definition M (A : Type) : Type := Outcome A * list Request.

Definition ret {A} (a : A) : M A := (Done a, []).
Definition fail {A} (e : error) : M A := (Failed e, []).

Definition bind {A B} (m : M A) (k : A → M B) : M B :=
  match m with
  | (Done a, t) => let '(o, t') := k a in (o, t ++ t')
  | (Failed e, t) => (Failed e, t)
  | (Running, t) => (Running, t)
  end.

Notation "'let*' x ':=' m 'in' k" := (bind m (fun x => k))
  (at level 10, x name, m at level 100, k at level 200,
   format "'let*'  x  ':='  m  'in'  '/' k").
Notation "m >> k" := (bind m (fun _ => k))
  (at level 62, right associativity).

Definition outcome {A} (m : M A) : Outcome A := fst m.
Definition trace {A} (m : M A) : list Request := snd m.

Definition isFiltered (r : Request) : bool :=
  match r with
  | getLogs _ _ _ | getLogs1 _ _ _ _ => true
  | _ => false
  end.

Definition isUnfiltered (r : Request) : bool :=
  match r with
  | getLogsNoFilters _ _ => true
  | _ => false
  end.

(** The block numbers of the unfiltered queries of a trace: the blocks that
    the run has checked, in the order of the checks. *)
Definition checkedBlocks (t : list Request) : list Z :=
  omap (fun r => match r with getLogsNoFilters from _ => Some from | _ => None end) t.

(** [sawAddr] and [sawTopic] of lines 201-202. *)
Record Seen : Type := mkSeen {
  sawAddr : gset Address;
  sawTopic : gset Hash
}.

Section Checker.

(** [reqGen.Erigon]: the reply of the node to a request. *)
Variable Erigon : Request → Reply.
(** The case the [select] at the end of the iteration of block [bn] takes. *)
Variable selectCase : Z → SelectCase.

Definition call (r : Request) : M Reply := (Done (Erigon r), [r]).

(** The two tests that follow every call (lines 191-196, 210-215, 236-241). *)
Definition getLogsCall (r : Request) : M (list Log) :=
  let* resp := call r in
  match Err resp with
  | Some e => fail (ErrCouldNotGet e)
  | None =>
      match Error resp with
      | Some e => fail (ErrGetting (Code e) (Message e))
      | None => ret (Result resp)
      end
  end.

(** A [noDuplicates] test whose error is wrapped by [wrap]. *)
Definition checkNoDuplicates (wrap : error → error) (logs : list Log) : M unit :=
  match noDuplicates logs with
  | Some err => fail (wrap err)
  | None => ret tt
  end.

(** The body of the loop over [resp.Result] (lines 204-247) for the entry
    [l]; a [continue] returns the sets as they are at that point. *)
Definition checkEntry (bn : Z) (l : Log) (s : Seen) : M Seen :=
  if decide (log_Address l ∈ sawAddr s) then ret s
  else
    let s := mkSeen ({[log_Address l]} ∪ sawAddr s) (sawTopic s) in
    let* logs := getLogsCall (getLogs bn bn (log_Address l)) in
    if (length logs =? 0)%nat then fail (ErrAccountNotIndexed bn (log_Address l))
    else
      checkNoDuplicates (ErrAtBlockAddr bn (log_Address l)) logs >>
      match log_Topics l with
      | [] => ret s
      | topic0 :: _ =>
          if decide (topic0 ∈ sawTopic s) then ret s
          else
            let s := mkSeen (sawAddr s) ({[topic0]} ∪ sawTopic s) in
            let* logs := getLogsCall (getLogs1 bn bn (log_Address l) topic0) in
            if (length logs =? 0)%nat
            then fail (ErrTopicNotIndexed bn (log_Address l) topic0)
            else
              checkNoDuplicates (ErrAtBlockTopic bn topic0) logs >>
              ret s
      end.

(** [for _, l := range resp.Result] (line 203). *)
Fixpoint checkEntries (bn : Z) (logs : list Log) (s : Seen) : M Seen :=
  match logs with
  | [] => ret s
  | l :: rest => let* s' := checkEntry bn l s in checkEntries bn rest s'
  end.

(** The check of one block (lines 189-248). *)
Definition checkBlock (bn : Z) : M unit :=
  let* logs := getLogsCall (getLogsNoFilters bn bn) in
  checkNoDuplicates (ErrAtBlock bn) logs >>
  checkEntries bn logs (mkSeen ∅ ∅) >>
  ret tt.

(** The [select] of lines 250-256. *)
Definition pollContext (bn : Z) : M unit :=
  match selectCase bn with
  | CaseLogEvery => ret tt
  | CaseDone e => fail (ErrCtx e)
  | CaseDefault => ret tt
  end.

(** One iteration of the inner loop (lines 187-259). *)
Definition blockBody (bn : Z) : M unit :=
  checkBlock bn >> pollContext bn.

(** [for ; bn < batchEnd; bn++] (line 186).  [bn < batchEnd] and
    [batchEnd] is a uint64, so [bn++] does not wrap and the loop runs
    [batchEnd - bn] times; [todo] counts the iterations left.  The value is
    [bn] after the loop. *)
Fixpoint batchLoop (todo : nat) (bn : Z) : M Z :=
  match todo with
  | O => ret bn
  | S todo' =>
      blockBody bn >> batchLoop todo' ((bn + 1) mod uint64_modulus)
  end.

(** [for bn := blockFrom; bn < blockTo; { ... }] (lines 181-265).  The
    [errgroup] has no task ([eg.Go] is commented out), so [eg.Wait()]
    returns [nil]. *)
Fixpoint rangeLoop (fuel : nat) (bn blockTo : Z) : M unit :=
  match fuel with
  | O => (Running, [])
  | S fuel' =>
      if bn <? blockTo then
        let batchEnd := Z.min ((bn + 10) mod uint64_modulus) blockTo in
        let* bn' := batchLoop (Z.to_nat (batchEnd - bn)) bn in
        rangeLoop fuel' bn' blockTo
      else ret tt
  end.

(** [EthGetLogsInvariants] (lines 147-267); [ctx] is [selectCase], the
    URLs only configure the transport and [needCompare] is not read. *)
Definition EthGetLogsInvariants (fuel : nat) (blockFrom blockTo : Z) : M unit :=
  let* resp := call blockNumber in
  match Err resp with
  | Some e => fail (ErrCouldNotGetBlockNumber e)
  | None =>
      match Error resp with
      | Some e => fail (ErrGettingBlockNumber (Code e) (Message e))
      | None => rangeLoop fuel blockFrom blockTo
      end
  end.

End Checker.

(** ** The run as a flat sequence, and what the tests decide *)

(** The addresses of the address-filtered queries of a trace, and the topics
    of its topic-filtered queries. *)
Definition addrQueries (t : list Request) : list Address :=
  omap (fun r => match r with getLogs _ _ a => Some a | _ => None end) t.


(** The error, if any, that the tests placed after a query of block [bn]
    raise on the reply [rp] to the request [r]. *)
Definition verdict (bn : Z) (r : Request) (rp : Reply) : option error :=
  match Err rp, Error rp with
  | Some e, _ => Some (ErrCouldNotGet e)
  | None, Some e => Some (ErrGetting (Code e) (Message e))
  | None, None =>
      match r with
      | blockNumber => None
      | getLogsNoFilters _ _ =>
          option_map (ErrAtBlock bn) (noDuplicates (Result rp))
      | getLogs _ _ a =>
          if (length (Result rp) =? 0)%nat then Some (ErrAccountNotIndexed bn a)
          else option_map (ErrAtBlockAddr bn a) (noDuplicates (Result rp))
      | getLogs1 _ _ a topic =>
          if (length (Result rp) =? 0)%nat then Some (ErrTopicNotIndexed bn a topic)
          else option_map (ErrAtBlockTopic bn topic) (noDuplicates (Result rp))
      end
  end.

(** The queries that the loop body of lines 204-247 sends for the entry [l]
    when the tests pass, and the sets it leaves. *)
Definition entryPlan (bn : Z) (l : Log) (s : Seen) : list Request :=
  if decide (log_Address l ∈ sawAddr s) then []
  else
    getLogs bn bn (log_Address l) ::
    match log_Topics l with
    | [] => []
    | topic0 :: _ =>
        if decide (topic0 ∈ sawTopic s) then []
        else [getLogs1 bn bn (log_Address l) topic0]
    end.

Definition entrySeen (l : Log) (s : Seen) : Seen :=
  if decide (log_Address l ∈ sawAddr s) then s
  else
    let s := mkSeen ({[log_Address l]} ∪ sawAddr s) (sawTopic s) in
    match log_Topics l with
    | [] => s
    | topic0 :: _ =>
        if decide (topic0 ∈ sawTopic s) then s
        else mkSeen (sawAddr s) ({[topic0]} ∪ sawTopic s)
    end.

Fixpoint entriesPlan (bn : Z) (logs : list Log) (s : Seen) : list Request :=
  match logs with
  | [] => []
  | l :: rest => entryPlan bn l s ++ entriesPlan bn rest (entrySeen l s)
  end.

Fixpoint entriesSeen (logs : list Log) (s : Seen) : Seen :=
  match logs with
  | [] => s
  | l :: rest => entriesSeen rest (entrySeen l s)
  end.

(** Sending the queries of a list in order, up to the first one whose reply
    fails a test. *)
Fixpoint runQueries (Erigon : Request → Reply) (bn : Z) (plan : list Request)
    : M unit :=
  match plan with
  | [] => ret tt
  | r :: rest =>
      match verdict bn r (Erigon r) with
      | Some e => (Failed e, [r])
      | None => (Done tt, [r]) >> runQueries Erigon bn rest
      end
  end.

(** How the error of [noDuplicates] is wrapped after the query [r] of block
    [bn] (lines 198, 222 and 246). *)
Definition wrapDuplicated (bn : Z) (r : Request) (err : error) : error :=
  match r with
  | getLogs _ _ a => ErrAtBlockAddr bn a err
  | getLogs1 _ _ _ topic => ErrAtBlockTopic bn topic err
  | _ => ErrAtBlock bn err
  end.

(** The reply to [r] passes the tests of block [bn]. *)
Definition passes (Erigon : Request → Reply) (bn : Z) (r : Request) : Prop :=
  verdict bn r (Erigon r) = None.

(** The queries of the check of block [bn] when the tests pass. *)
Definition blockPlan (Erigon : Request → Reply) (bn : Z) : list Request :=
  getLogsNoFilters bn bn ::
  entriesPlan bn (Result (Erigon (getLogsNoFilters bn bn))) (mkSeen ∅ ∅).

(** [n] consecutive blocks from [bn] on, one after the other. *)
Fixpoint blocksFrom (Erigon : Request → Reply) (selectCase : Z → SelectCase)
    (n : nat) (bn : Z) : M unit :=
  match n with
  | O => ret tt
  | S n' =>
      blockBody Erigon selectCase bn >> blocksFrom Erigon selectCase n' (bn + 1)
  end.

(** ** Test doubles *)

Definition okReply (logs : list Log) : Reply := mkReply None None logs.

(** A node whose every reply is an empty log set. *)
Definition quietNode (_ : Request) : Reply := okReply [].

(** A node that cannot be reached. *)
Definition offlineNode (_ : Request) : Reply :=
  mkReply (Some "connection refused"%string) None [].

(** A node that answers every log query with an empty log set and fails on
    [eth_blockNumber]. *)
Definition noBlockNumberNode (r : Request) : Reply :=
  match r with
  | blockNumber => mkReply (Some "connection refused"%string) None []
  | _ => okReply []
  end.

(** A context that is never done while the ticker never fires. *)
Definition neverDone (_ : Z) : SelectCase := CaseDefault.

(** A context that is found cancelled at the end of block [at_bn]. *)
Definition cancelledAt (at_bn : Z) (bn : Z) : SelectCase :=
  if bn =? at_bn then CaseDone Canceled else CaseDefault.

(** The node of the scenarios.  Blocks 5, 6 and 7 are those of the
    specification; in block 8 one address emits two first topics, in block 9
    two addresses emit the same first topic, and in both the index by
    (address, topic) has lost the second entry; the queries of block 10 fail
    in the transport and those of block 11 with an RPC error. *)
Definition scenarioNode (r : Request) : Reply :=
  match r with
  | getLogsNoFilters 5 5 => okReply [mkLog 10 [1%N] 0; mkLog 10 [1%N] 0]
  | getLogsNoFilters 6 6 => okReply [mkLog 11 [] 0]
  | getLogs 6 6 11%N => okReply []
  | getLogsNoFilters 7 7 => okReply [mkLog 12 [9%N] 0; mkLog 12 [] 1]
  | getLogs 7 7 12%N => okReply [mkLog 12 [9%N] 0; mkLog 12 [] 1]
  | getLogs1 7 7 12%N 9%N => okReply [mkLog 12 [9%N] 0]
  | getLogsNoFilters 8 8 => okReply [mkLog 10 [1%N] 0; mkLog 10 [2%N] 1]
  | getLogs 8 8 10%N => okReply [mkLog 10 [1%N] 0; mkLog 10 [2%N] 1]
  | getLogs1 8 8 10%N 1%N => okReply [mkLog 10 [1%N] 0]
  | getLogsNoFilters 9 9 => okReply [mkLog 10 [1%N] 0; mkLog 11 [1%N] 1]
  | getLogs 9 9 10%N => okReply [mkLog 10 [1%N] 0]
  | getLogs 9 9 11%N => okReply [mkLog 11 [1%N] 1]
  | getLogs1 9 9 10%N 1%N => okReply [mkLog 10 [1%N] 0]
  | getLogsNoFilters 10 10 => mkReply (Some "timeout"%string) None []
  | getLogsNoFilters 11 11 =>
      mkReply None (Some (mkEthError (-32000) "header not found"%string)) []
  | _ => okReply []
  end.

(** A node whose index by address (block 3) and by address and topic
    (block 4) returns the one entry of the block twice. *)
Definition dupIndexNode (r : Request) : Reply :=
  match r with
  | getLogsNoFilters 3 3 => okReply [mkLog 10 [1%N] 0]
  | getLogs 3 3 10%N => okReply [mkLog 10 [1%N] 0; mkLog 10 [1%N] 0]
  | getLogsNoFilters 4 4 => okReply [mkLog 10 [1%N] 0]
  | getLogs 4 4 10%N => okReply [mkLog 10 [1%N] 0]
  | getLogs1 4 4 10%N 1%N => okReply [mkLog 10 [1%N] 0; mkLog 10 [1%N] 0]
  | _ => okReply []
  end.

(** The same node with the entries of block 7 in the other order. *)
Definition scenarioNode' (r : Request) : Reply :=
  match r with
  | getLogsNoFilters 7 7 => okReply [mkLog 12 [] 1; mkLog 12 [9%N] 0]
  | _ => scenarioNode r
  end.

(** ** [BenchEthGetLogs] (lines 42-145)

    The functions it calls that the file does not define are variables of
    the section [Bench]: [os.Create], the two calls of [reqGen.Erigon],
    [extractAccountMap] with the order in which the [range] statement visits
    the keys of the map, [getTopics], [requestAndCompare] and the generator
    [rnd] with its method [Int31n]. *)

Inductive FileRole : Type := RecordFile | ErrorFile.

(** The request bodies handed to [requestAndCompare]: [getLogs] and
    [getLogs1] as above, and [getLogs2]. *)
Inductive LogsRequest : Type :=
| plain (r : Request)
| getLogs2 (from to : Z) (a : Address) (topic1 topic2 : Hash).

(** What the function does to its environment, in order. *)
Inductive BenchEvent : Type :=
| EvCreate (role : FileRole) (name : string)   (* os.Create(name) *)
| EvFlush (role : FileRole)                    (* rec.Flush(), errs.Flush() *)
| EvClose (role : FileRole)                    (* f.Close(), ferr.Close() *)
| EvGoVegetaWrite                              (* go vegetaWrite(...) *)
| EvCloseResultsCh                             (* close(resultsCh) *)
| EvErigonBlockNumber                          (* reqGen.Erigon("eth_blockNumber", ...) *)
| EvErigonModifiedAccounts (prevBn bn : Z)     (* reqGen.Erigon("debug_getModifiedAccountsByNumber", ...) *)
| EvRequestAndCompare (request : LogsRequest). (* requestAndCompare(request, "eth_getLogs", ...) *)

(** The errors [BenchEthGetLogs] returns: those of [error] with the same
    format strings, the two of lines 49 and 59, and the error of
    [requestAndCompare], returned as it is. *)
Inductive bench_error : Type :=
| BenchErr (e : error)
| CannotCreateRecording (file err : string)    (* "Cannot create file %s for recording: %v\n" *)
| CannotCreateErrorOutput (file err : string)  (* "Cannot create file %s for error output: %v\n" *)
| CompareErr (err : string).

(** What the call of [debug_getModifiedAccountsByNumber] leaves in [res]
    ([res.Err] and the parsed response [res.Result], a [*fastjson.Value]) and
    in [mag] ([mag.Error], [mag.Result]). *)
Record ModifiedAccounts (Value : Type) : Type := mkModifiedAccounts {
  res_Err : option string;
  res_Result : Value;
  mag_Error : option EthError;
  mag_Result : list Address
}.
Arguments mkModifiedAccounts {Value}.
Arguments res_Err {Value}.
Arguments res_Result {Value}.
Arguments mag_Error {Value}.
Arguments mag_Result {Value}.

(** How a part of the function ends: it goes on with a value, it returns an
    error, it panics, or the fuel of the loop over the windows is used up. *)
Inductive Step (A : Type) : Type :=
| Next (a : A)
| Return (err : bench_error)
| Panic
| Unfinished.
Arguments Next {A} a.
Arguments Return {A} err.
Arguments Panic {A}.
Arguments Unfinished {A}.

Definition B (A : Type) : Type := Step A * list BenchEvent.

Definition bret {A} (a : A) : B A := (Next a, []).
Definition emit (ev : BenchEvent) : B unit := (Next tt, [ev]).

Definition bbind {A C} (m : B A) (k : A → B C) : B C :=
  match m with
  | (Next a, t) => let '(o, t') := k a in (o, t ++ t')
  | (Return e, t) => (Return e, t)
  | (Panic, t) => (Panic, t)
  | (Unfinished, t) => (Unfinished, t)
  end.

(** [defer]: the deferred calls run when the rest of the function returns
    or panics. *)
Definition deferred {A} (calls : list BenchEvent) (rest : B A) : B A :=
  match rest with
  | (Unfinished, t) => (Unfinished, t)
  | (o, t) => (o, t ++ calls)
  end.

(** [int32(n)] for an [int]. *)
Definition int32 (n : Z) : Z := (n + 2 ^ 31) mod 2 ^ 32 - 2 ^ 31.

(** Lines 127-129: [if idx2 >= idx1 { idx2++ }]. *)
Definition skipFirst (idx1 idx2 : Z) : Z :=
  if idx1 <=? idx2 then int32 (idx2 + 1) else idx2.

Section Bench.

(** [*rand.Rand] and [*fastjson.Value] *)
Variables RndState Value : Type.
(** [os.Create(name)]: [None] when the file is created, or the error. *)
Variable os_Create : string → option string.
(** The call of [eth_blockNumber]: [res.Err] and [blockNumber.Error]. *)
Variable ErigonBlockNumber : Reply.
(** The call of [debug_getModifiedAccountsByNumber] for a window. *)
Variable ErigonModifiedAccounts : Z → Z → ModifiedAccounts Value.
(** The keys of [extractAccountMap(&mag)] in the order in which the [range]
    of line 102 visits them (any order: no statement depends on it). *)
Variable rangeAccounts : ModifiedAccounts Value → list Address.
(** [getTopics] *)
Variable getTopics : Value → list Hash.
(** [requestAndCompare(request, ...)]: [None] is the [nil] error. *)
Variable requestAndCompare : LogsRequest → option string.
(** [rnd.Int31n(n)] for [n > 0]: the number drawn and the generator after. *)
Variable Int31n : RndState → Z → Z * RndState.
(** [rand.New(rand.NewSource(42))] *)
Variable rnd42 : RndState.

(** [rnd.Int31n(n)] panics when [n <= 0]. *)
Definition drawInt31n (rnd : RndState) (n : Z) : B (Z * RndState) :=
  if n <=? 0 then (Panic, []) else bret (Int31n rnd n).

(** [topics[idx]] panics when [idx] is out of range. *)
Definition topicAt (topics : list Hash) (idx : Z) : B Hash :=
  if idx <? 0 then (Panic, [])
  else
    match topics !! Z.to_nat idx with
    | Some topic => bret topic
    | None => (Panic, [])
    end.

(** A call of [requestAndCompare] and the test of its error (lines 106-110,
    117-121 and 133-137). *)
Definition compare (request : LogsRequest) : B unit :=
  bbind (emit (EvRequestAndCompare request)) (fun _ =>
  match requestAndCompare request with
  | Some err => (Return (CompareErr err), [])
  | None => bret tt
  end).

(** Lines 113-122: one request per topic. *)
Fixpoint compareTopics (prevBn bn : Z) (account : Address) (topics : list Hash)
    : B unit :=
  match topics with
  | [] => bret tt
  | topic :: rest =>
      bbind (compare (plain (getLogs1 prevBn ((bn + 10000) mod uint64_modulus)
                               account topic))) (fun _ =>
      compareTopics prevBn bn account rest)
  end.

(** Lines 125-129: the two positions drawn. *)
Definition drawTwo (rnd : RndState) (len : Z) : B (Z * Z * RndState) :=
  bbind (drawInt31n rnd (int32 len)) (fun '(idx1, rnd) =>
  bbind (drawInt31n rnd (int32 (len - 1))) (fun '(idx2, rnd) =>
  bret (idx1, skipFirst idx1 idx2, rnd))).

(** Lines 124-138: the request with two topics drawn at random. *)
Definition compareTwoTopics (prevBn bn : Z) (account : Address)
    (topics : list Hash) (rnd : RndState) : B RndState :=
  if (2 <=? length topics)%nat then
    bbind (drawTwo rnd (Z.of_nat (length topics))) (fun '(idx1, idx2, rnd) =>
    bbind (topicAt topics idx1) (fun topic1 =>
    bbind (topicAt topics idx2) (fun topic2 =>
    bbind (compare (getLogs2 prevBn ((bn + 100000) mod uint64_modulus)
                      account topic1 topic2)) (fun _ =>
    bret rnd))))
  else bret rnd.

(** The body of the loop over the accounts (lines 104-138). *)
Definition compareAccount (prevBn bn : Z) (mag : ModifiedAccounts Value)
    (account : Address) (rnd : RndState) : B RndState :=
  bbind (compare (plain (getLogs prevBn bn account))) (fun _ =>
  let topics := getTopics (res_Result mag) in
  bbind (compareTopics prevBn bn account topics) (fun _ =>
  compareTwoTopics prevBn bn account topics rnd)).

(** [for account := range accountSet] (line 102). *)
Fixpoint compareAccounts (prevBn bn : Z) (mag : ModifiedAccounts Value)
    (accounts : list Address) (rnd : RndState) : B RndState :=
  match accounts with
  | [] => bret rnd
  | account :: rest =>
      bbind (compareAccount prevBn bn mag account rnd) (fun rnd =>
      compareAccounts prevBn bn mag rest rnd)
  end.

(** The body of the loop over the windows (lines 92-141). *)
Definition window (prevBn bn : Z) (rnd : RndState) : B RndState :=
  bbind (emit (EvErigonModifiedAccounts prevBn bn)) (fun _ =>
  let mag := ErigonModifiedAccounts prevBn bn in
  match res_Err mag with
  | Some e => (Return (BenchErr (ErrCouldNotGet e)), [])
  | None =>
      match mag_Error mag with
      | Some e => (Return (BenchErr (ErrGetting (Code e) (Message e))), [])
      | None =>
          if bool_decide (res_Err mag = None) && bool_decide (mag_Error mag = None)
          then compareAccounts prevBn bn mag (rangeAccounts mag) rnd
          else bret rnd
      end
  end).

(** [for bn := blockFrom + 100; bn < blockTo; bn += 100] (lines 88-143);
    [prevBn = bn] at the end of the body. *)
Fixpoint windows (fuel : nat) (prevBn bn blockTo : Z) (rnd : RndState) : B unit :=
  match fuel with
  | O => (Unfinished, [])
  | S fuel' =>
      if bn <? blockTo then
        bbind (window prevBn bn rnd) (fun rnd =>
        windows fuel' bn ((bn + 100) mod uint64_modulus) blockTo rnd)
      else bret tt
  end.

(** Lines 73-144: from the call of [eth_blockNumber] on. *)
Definition benchMain (fuel : nat) (blockFrom blockTo : Z) : B unit :=
  bbind (emit EvErigonBlockNumber) (fun _ =>
  match Err ErigonBlockNumber with
  | Some e => (Return (BenchErr (ErrCouldNotGetBlockNumber e)), [])
  | None =>
      match Error ErigonBlockNumber with
      | Some e =>
          (Return (BenchErr (ErrGettingBlockNumber (Code e) (Message e))), [])
      | None =>
          windows fuel blockFrom ((blockFrom + 100) mod uint64_modulus) blockTo
            rnd42
      end
  end).

(** Lines 66-71. *)
Definition withResultsCh (needCompare : bool) (rest : B unit) : B unit :=
  if negb needCompare then
    deferred [EvCloseResultsCh] (bbind (emit EvGoVegetaWrite) (fun _ => rest))
  else rest.

(** Lines 45-54 and 55-64: the file is created when its name is not empty,
    and then closed and its writer flushed by two deferred calls. *)
Definition withFile (role : FileRole) (name : string)
    (cannotCreate : string → string → bench_error) (rest : B unit) : B unit :=
  if bool_decide (name ≠ ""%string) then
    bbind (emit (EvCreate role name)) (fun _ =>
    match os_Create name with
    | Some err => (Return (cannotCreate name err), [])
    | None => deferred [EvFlush role; EvClose role] rest
    end)
  else rest.

(** [BenchEthGetLogs]; the URLs only configure the transport. *)
Definition BenchEthGetLogs (fuel : nat) (needCompare : bool)
    (blockFrom blockTo : Z) (recordFile errorFile : string) : B unit :=
  withFile RecordFile recordFile CannotCreateRecording
    (withFile ErrorFile errorFile CannotCreateErrorOutput
       (withResultsCh needCompare (benchMain fuel blockFrom blockTo))).

End Bench.

Arguments drawInt31n {RndState}.
Arguments drawTwo {RndState}.
Arguments compareTwoTopics {RndState}.
Arguments compareAccount {RndState Value}.
Arguments compareAccounts {RndState Value}.
Arguments window {RndState Value}.
Arguments windows {RndState Value}.
Arguments benchMain {RndState Value}.
Arguments BenchEthGetLogs {RndState Value}.

(** The windows of the calls of [debug_getModifiedAccountsByNumber] of a
    trace, in order. *)
Definition modifiedAccountsCalls (t : list BenchEvent) : list (Z * Z) :=
  omap (fun ev => match ev with
                  | EvErigonModifiedAccounts prevBn bn => Some (prevBn, bn)
                  | _ => None
                  end) t.

(** The requests handed to [requestAndCompare] in a trace, in order. *)
Definition comparedRequests (t : list BenchEvent) : list LogsRequest :=
  omap (fun ev => match ev with
                  | EvRequestAndCompare request => Some request
                  | _ => None
                  end) t.

(** A request of the window [prevBn, bn] for an account: from [prevBn] to
    [bn] with no topic, to [bn + 10000] with one of the topics, or to
    [bn + 100000] with two of them. *)
Definition windowRequest (prevBn bn : Z) (topics : list Hash)
    (account : Address) (request : LogsRequest) : Prop :=
  request = plain (getLogs prevBn bn account)
  ∨ (∃ topic, topic ∈ topics
       ∧ request = plain (getLogs1 prevBn ((bn + 10000) mod uint64_modulus)
                            account topic))
  ∨ (∃ topic1 topic2, topic1 ∈ topics ∧ topic2 ∈ topics
       ∧ request = getLogs2 prevBn ((bn + 100000) mod uint64_modulus)
                     account topic1 topic2).

(** The calls a trace leaves to be made at the end: a flush and a close for
    each file created, the closing of the channel for the writer started,
    the latest first. *)
Fixpoint owed (os_Create : string → option string) (t : list BenchEvent)
    : list BenchEvent :=
  match t with
  | [] => []
  | ev :: t' =>
      owed os_Create t' ++
      match ev with
      | EvCreate role name =>
          match os_Create name with
          | None => [EvFlush role; EvClose role]
          | Some _ => []
          end
      | EvGoVegetaWrite => [EvCloseResultsCh]
      | _ => []
      end
  end.

(** The events of the end of the function. *)
Definition isCleanup (ev : BenchEvent) : Prop :=
  match ev with
  | EvFlush _ | EvClose _ | EvCloseResultsCh => True
  | _ => False
  end.

(** The number of windows of the loop that starts at [bn]. *)
Definition windowCount (bn blockTo : Z) : Z := (blockTo - bn + 99) / 100.

(** The events that are calls of the node or of [requestAndCompare]. *)
Definition isRpc (ev : BenchEvent) : Prop :=
  match ev with
  | EvErigonBlockNumber | EvErigonModifiedAccounts _ _ | EvRequestAndCompare _ =>
      True
  | _ => False
  end.

(** A part of the function that only calls [requestAndCompare], on requests
    that satisfy [P]: it goes on only when each call has returned [nil], it
    always ends, and a call that returns an error is the last one, its error
    the one returned. *)
Definition traced {A} (requestAndCompare : LogsRequest → option string)
    (P : LogsRequest → Prop) (m : B A) : Prop :=
  ∃ requests,
    snd m = EvRequestAndCompare <$> requests
    ∧ Forall P requests
    ∧ ((∃ a, fst m = Next a) →
       Forall (fun request => requestAndCompare request = None) requests)
    ∧ fst m ≠ Unfinished
    ∧ (∀ request err,
         request ∈ requests → requestAndCompare request = Some err →
         fst m = Return (CompareErr err) ∧ last requests = Some request).

(** [outer] runs [inner] and adds no call of the node or of
    [requestAndCompare] but [eth_blockNumber], or returns an error before any
    such call. *)
Definition covers (outer inner : B unit) : Prop :=
  (fst outer = fst inner
   ∧ comparedRequests (snd outer) = comparedRequests (snd inner)
   ∧ modifiedAccountsCalls (snd outer) = modifiedAccountsCalls (snd inner))
  ∨ ((∃ e, fst outer = Return e)
     ∧ comparedRequests (snd outer) = []
     ∧ modifiedAccountsCalls (snd outer) = []).

(** A run that has ended has made, after everything else, the calls it owed. *)
Definition cleansUp (os_Create : string → option string) (m : B unit) : Prop :=
  fst m ≠ Unfinished →
  ∃ body, snd m = body ++ owed os_Create body ∧ Forall (fun ev => ¬ isCleanup ev) body.

(** The modified accounts of the window have been fetched. *)
Definition fetched {Value} (ErigonModifiedAccounts : Z → Z → ModifiedAccounts Value)
    (prevBn bn : Z) : Prop :=
  res_Err (ErigonModifiedAccounts prevBn bn) = None
  ∧ mag_Error (ErigonModifiedAccounts prevBn bn) = None.

(** Test doubles: every file can be created, every window has the modified
    accounts 10 and 11 and the topics 1, 2 and 3, every comparison succeeds,
    and the generator counts up from its seed. *)
Definition alwaysCreated (_ : string) : option string := None.
Definition benchModified (_ _ : Z) : ModifiedAccounts (list Hash) :=
  mkModifiedAccounts None [1; 2; 3]%N None [10; 11]%N.
Definition allEqual (_ : LogsRequest) : option string := None.
Definition counterInt31n (rnd n : Z) : Z * Z := (rnd mod n, rnd + 1).
(** The comparison fails on the requests with the one topic 2. *)
Definition mismatchOn2 (request : LogsRequest) : option string :=
  match request with
  | plain (getLogs1 _ _ _ 2%N) => Some "mismatch"%string
  | _ => None
  end.
Definition benchScenario (fuel : nat) (blockFrom blockTo : Z) : B unit :=
  BenchEthGetLogs alwaysCreated (okReply []) benchModified mag_Result id
    allEqual counterInt31n 42 fuel false blockFrom blockTo "rec" "err".

(** A value is not among the listed ones, all of them different from it. *)
Ltac not_in_list :=
  let H := fresh in
  intros H;
  repeat (apply elem_of_cons in H as [H|H]; [discriminate H |]);
  by apply elem_of_nil in H.

(** ** The duplicate check *)

Section NoDuplicates.

Implicit Types (l : list N) (logs : list Log).

Lemma slices_Sort_Permutation l : slices_Sort l ≡ₚ l.
Proof. apply merge_sort_Permutation. Qed.

Lemma slices_Sort_Sorted l : Sorted N.le (slices_Sort l).
Proof. apply Sorted_merge_sort, _. Qed.

Lemma slices_Sort_length l : length (slices_Sort l) = length l.
Proof. by rewrite slices_Sort_Permutation. Qed.

(** Any ascending arrangement of [l] is the one [slices_Sort] returns. *)
Lemma slices_Sort_unique l l' :
  Sorted N.le l' → l' ≡ₚ l → l' = slices_Sort l.
Proof.
  intros Hs Hp. apply (Sorted_unique N.le); [done | apply slices_Sort_Sorted |].
  by rewrite slices_Sort_Permutation.
Qed.

Lemma slices_Sort_perm_eq l l' : l ≡ₚ l' → slices_Sort l = slices_Sort l'.
Proof.
  intros Hp. apply slices_Sort_unique; [apply slices_Sort_Sorted |].
  by rewrite slices_Sort_Permutation.
Qed.

(** The scan of an ascending list finds nothing exactly when no value
    repeats. *)
Lemma scanIndices_None l :
  StronglySorted N.le l → scanIndices l = None ↔ NoDup l.
Proof.
  induction 1 as [|a l Hs IH Hall]; [split; [constructor | done]|].
  destruct l as [|b l]; [split; [intros; apply NoDup_singleton | done]|].
  cbn [scanIndices]. destruct (N.eqb_spec a b) as [->|Hne].
  - split; [done |]. intros Hnd. apply NoDup_cons_1_1 in Hnd.
    destruct Hnd. by left.
  - rewrite IH. split.
    + intros Hnd. apply NoDup_cons_2; [|done].
      intros Hin. apply StronglySorted_inv in Hs as [_ Hb].
      apply Forall_cons in Hall as [Hab _].
      apply elem_of_cons in Hin as [->|Hin]; [done |].
      rewrite Forall_forall in Hb. specialize (Hb _ Hin). lia.
    + apply NoDup_cons_1_2.
Qed.

(** An error of the scan names a value that two neighbours share. *)
Lemma scanIndices_Some l e :
  scanIndices l = Some e →
  ∃ d l1 l2, e = ErrDuplicated d ∧ l = l1 ++ d :: d :: l2.
Proof.
  induction l as [|a l IH]; [done |].
  destruct l as [|b l]; [done |]. cbn [scanIndices].
  destruct (N.eqb_spec a b) as [->|Hne].
  - intros [= <-]. by exists b, [], l.
  - intros (d & l1 & l2 & -> & Hl)%IH. exists d, (a :: l1), l2.
    by rewrite Hl.
Qed.

Lemma repeated_neighbours d l1 l2 : repeated d (l1 ++ d :: d :: l2).
Proof.
  exists (length l1), (S (length l1)). split; [lia |].
  split.
  - by rewrite list_lookup_middle.
  - rewrite (lookup_app_r l1); [|lia].
    by replace (S (length l1) - length l1)%nat with 1%nat by lia.
Qed.

Lemma repeated_not_NoDup d l : repeated d l → ¬ NoDup l.
Proof.
  intros (i & j & Hij & Hi & Hj) Hnd.
  apply Hij. eapply NoDup_lookup; eauto.
Qed.

Lemma repeated_Permutation d l l' : l ≡ₚ l' → repeated d l → repeated d l'.
Proof.
  intros Hp (i & j & Hij & Hi & Hj).
  apply Permutation_inj in Hp as [_ (f & Hf & Hl)].
  exists (f i), (f j). rewrite <- !Hl. split; [|done].
  intros Heq. by apply Hij, Hf.
Qed.

(** [noDuplicates] is the scan of the sorted indices, also under the guard of
    line 165. *)
Lemma noDuplicates_scan logs :
  noDuplicates logs = scanIndices (slices_Sort (map log_Index logs)).
Proof.
  unfold noDuplicates. destruct (Nat.leb_spec (length logs) 1) as [Hle|]; [|done].
  pose proof (slices_Sort_length (map log_Index logs)) as Hlen.
  rewrite length_map in Hlen.
  destruct (slices_Sort (map log_Index logs)) as [|a [|b l]]; simpl in *; [done..|lia].
Qed.

Lemma noDuplicates_None logs :
  noDuplicates logs = None ↔ NoDup (map log_Index logs).
Proof.
  rewrite noDuplicates_scan, scanIndices_None.
  - by rewrite slices_Sort_Permutation.
  - apply Sorted_StronglySorted; [apply _ | apply slices_Sort_Sorted].
Qed.

Lemma noDuplicates_Some logs e :
  noDuplicates logs = Some e →
  ∃ d, e = ErrDuplicated d ∧ repeated d (map log_Index logs).
Proof.
  rewrite noDuplicates_scan. intros (d & l1 & l2 & -> & Hl)%scanIndices_Some.
  exists d. split; [done |].
  apply (repeated_Permutation d _ _ (slices_Sort_Permutation _)).
  rewrite Hl. apply repeated_neighbours.
Qed.

(** The frame version: the append loop copies the indices of [logs] from
    position [i] on. *)
Lemma appendLoop_spec rest : ∀ i logs ind,
  drop i logs = rest →
  appendLoop (length rest) i (mkFrame logs ind)
  = Some (mkFrame logs (ind ++ map log_Index rest)).
Proof.
  induction rest as [|l rest IH]; intros i logs ind Hdrop; simpl.
  - by rewrite app_nil_r.
  - assert (logs !! i = Some l) as Hi.
    { rewrite <- (Nat.add_0_r i), <- lookup_drop, Hdrop. done. }
    rewrite Hi, IH; [by rewrite <- app_assoc |].
    rewrite (drop_S _ _ _ Hi) in Hdrop. congruence.
Qed.

(** The comparison loop by index is the scan of the list. *)
Lemma compareLoop_spec rest : ∀ pre a f,
  fr_indices f = pre ++ a :: rest →
  compareLoop (length rest) (S (length pre)) f = Some (scanIndices (a :: rest)).
Proof.
  induction rest as [|b rest IH]; intros pre a f Hf; [done |].
  cbn [length compareLoop scanIndices].
  replace (S (length pre) - 1)%nat with (length pre) by lia.
  assert (fr_indices f !! length pre = Some a) as ->.
  { rewrite Hf. by apply list_lookup_middle. }
  assert (fr_indices f !! S (length pre) = Some b) as ->.
  { rewrite Hf, (lookup_app_r pre) by lia.
    by replace (S (length pre) - length pre)%nat with 1%nat by lia. }
  destruct (N.eqb a b); [done |].
  replace (S (length pre)) with (length (pre ++ [a])) by (rewrite length_app; simpl; lia).
  apply IH. by rewrite Hf, <- app_assoc.
Qed.

(** The closure never reads out of range, returns what [noDuplicates]
    computes and leaves [logs] as it was. *)
Lemma noDuplicates_run_spec logs :
  ∃ indices,
    noDuplicates_run logs = Some (noDuplicates logs, mkFrame logs indices).
Proof.
  unfold noDuplicates_run, noDuplicates. simpl.
  destruct (Nat.leb_spec (length logs) 1) as [Hle|Hgt]; [by eexists |].
  rewrite (appendLoop_spec logs 0 logs []) by done. simpl.
  pose proof (slices_Sort_length (map log_Index logs)) as Hlen.
  rewrite length_map in Hlen.
  destruct (slices_Sort (map log_Index logs)) as [|a rest] eqn:Hs; simpl in Hlen; [lia |].
  replace (length logs - 1)%nat with (length rest) by lia.
  rewrite (compareLoop_spec rest [] a) by done. by eexists.
Qed.

(** C3. The duplicate check fails exactly when a log-index value repeats:
    it returns no error on a log set whose index values are pairwise
    distinct, hence on every log set of 0 or 1 entries, and on a log set in
    which some index value repeats it returns an error that names a value
    which repeats. *)
Theorem noDuplicates_fails_iff_repeated logs :
  let indices := map log_Index logs in
  (NoDup indices → noDuplicates logs = None) ∧
  ((length logs ≤ 1)%nat → noDuplicates logs = None) ∧
  ((∃ d, repeated d indices) →
     ∃ d', noDuplicates logs = Some (ErrDuplicated d') ∧ repeated d' indices) ∧
  (noDuplicates logs ≠ None ↔ ∃ d, repeated d indices).
Proof.
  intros indices.
  assert (Hfail : (∃ d, repeated d indices) →
     ∃ d', noDuplicates logs = Some (ErrDuplicated d') ∧ repeated d' indices).
  { intros [d Hd]. destruct (noDuplicates logs) as [e|] eqn:He.
    - apply noDuplicates_Some in He as (d' & -> & Hd'). eauto.
    - apply noDuplicates_None in He. by apply repeated_not_NoDup in Hd. }
  split; [apply noDuplicates_None |]. split; [|split; [done |]].
  - intros Hle. apply noDuplicates_None. subst indices.
    destruct logs as [|l [|l' logs]]; simpl in *;
      [constructor | apply NoDup_singleton | lia].
  - split.
    + destruct (noDuplicates logs) as [e|] eqn:He; [|done].
      apply noDuplicates_Some in He as (d & _ & Hd). eauto.
    + intros (d' & He & _)%Hfail. by rewrite He.
Qed.

(** C10. The duplicate check depends on the multiset of the log-index
    values only, so it returns the same result on every reordering of the
    log set; and the closure returns with its argument [logs] unchanged
    (what it sorts is its own slice [indices]). *)
Theorem noDuplicates_permutation_invariant logs logs' :
  (map log_Index logs ≡ₚ map log_Index logs' →
     noDuplicates logs = noDuplicates logs') ∧
  (logs ≡ₚ logs' → noDuplicates logs = noDuplicates logs') ∧
  (∃ indices,
     noDuplicates_run logs = Some (noDuplicates logs, mkFrame logs indices)).
Proof.
  assert (Hidx : map log_Index logs ≡ₚ map log_Index logs' →
                 noDuplicates logs = noDuplicates logs').
  { intros Hp. rewrite !noDuplicates_scan. f_equal. by apply slices_Sort_perm_eq. }
  split; [done |]. split; [|apply noDuplicates_run_spec].
  intros Hp. apply Hidx. by rewrite Hp.
Qed.

End NoDuplicates.

(** The log sets of blocks 7 and 5 of the specification: indices 0 and 1,
    and index 0 twice. *)
Lemma noDuplicates_fails_iff_repeated_blocks_7_5 :
  noDuplicates [mkLog 12 [9%N] 0; mkLog 12 [] 1] = None
  ∧ ∃ d, noDuplicates [mkLog 10 [1%N] 0; mkLog 10 [1%N] 0] = Some (ErrDuplicated d)
         ∧ repeated d [0%N; 0%N].
Proof.
  split.
  - destruct (noDuplicates_fails_iff_repeated [mkLog 12 [9%N] 0; mkLog 12 [] 1])
      as (Hdistinct & _).
    apply Hdistinct. simpl.
    apply NoDup_cons_2; [not_in_list | apply NoDup_singleton].
  - destruct (noDuplicates_fails_iff_repeated [mkLog 10 [1%N] 0; mkLog 10 [1%N] 0])
      as (_ & _ & Hrepeated & _).
    apply Hrepeated. exists 0%N, 0%nat, 1%nat. repeat split. discriminate.
Defined.

(** The two entries of block 7 in either order. *)
Lemma noDuplicates_permutation_invariant_block7 :
  noDuplicates [mkLog 12 [9%N] 0; mkLog 12 [] 1]
  = noDuplicates [mkLog 12 [] 1; mkLog 12 [9%N] 0].
Proof.
  destruct (noDuplicates_permutation_invariant
              [mkLog 12 [9%N] 0; mkLog 12 [] 1] [mkLog 12 [] 1; mkLog 12 [9%N] 0])
    as (_ & Hperm & _).
  apply Hperm, perm_swap.
Defined.

(** ** The monad *)

Section Monad.

Context {A B C : Type}.

Lemma bind_ret_l (a : A) (k : A → M B) : bind (ret a) k = k a.
Proof. unfold bind, ret. by destruct (k a). Qed.

Lemma bind_ret_r (m : M A) : bind m ret = m.
Proof. destruct m as [[a|e|] t]; simpl; by rewrite ?app_nil_r. Qed.

Lemma bind_assoc (m : M A) (k : A → M B) (h : B → M C) :
  bind (bind m k) h = bind m (fun a => bind (k a) h).
Proof.
  destruct m as [[a|e|] t]; simpl; [|done..].
  destruct (k a) as [[b|e|] t']; simpl; [|done..].
  destruct (h b) as [o t'']. by rewrite app_assoc.
Qed.

Lemma bind_ret_tt (m : M unit) : (m >> ret tt) = m.
Proof. destruct m as [[[]|e|] t]; simpl; by rewrite ?app_nil_r. Qed.

Lemma bind_ret_ret (m : M unit) (a : A) : ((m >> ret a) >> ret tt) = m.
Proof. destruct m as [[[]|e|] t]; simpl; by rewrite ?app_nil_r. Qed.

Lemma bind_then_ret (m : M unit) (b : B) (h : B → M C) :
  bind (m >> ret b) h = (m >> h b).
Proof.
  destruct m as [[[]|e|] t]; simpl; [|done..].
  destruct (h b) as [o t']. by rewrite app_nil_r.
Qed.

Lemma outcome_bind_Done (a : A) (t : list Request) (k : A → M B) :
  outcome (bind (Done a, t) k) = outcome (k a).
Proof. simpl. by destruct (k a). Qed.

Lemma trace_bind_Done (a : A) (t : list Request) (k : A → M B) :
  trace (bind (Done a, t) k) = t ++ trace (k a).
Proof. simpl. by destruct (k a). Qed.

Lemma bind_Failed (e : error) (t : list Request) (k : A → M B) :
  bind (Failed e, t) k = (Failed e, t).
Proof. done. Qed.

Lemma bind_Done (a : A) (t : list Request) (k : A → M B) :
  bind (Done a, t) k = (outcome (k a), t ++ trace (k a)).
Proof. simpl. by destruct (k a). Qed.

End Monad.

(** ** The check of a block as a list of queries *)

Section BlockCheck.

Variable Erigon : Request → Reply.
Implicit Types (bn : Z) (l : Log) (logs : list Log) (s : Seen) (r : Request).

Lemma getLogsCall_eq r :
  getLogsCall Erigon r =
  match Err (Erigon r), Error (Erigon r) with
  | Some e, _ => (Failed (ErrCouldNotGet e), [r])
  | None, Some e => (Failed (ErrGetting (Code e) (Message e)), [r])
  | None, None => (Done (Result (Erigon r)), [r])
  end.
Proof.
  unfold getLogsCall, call. simpl.
  destruct (Err (Erigon r)); [done |]. by destruct (Error (Erigon r)).
Qed.

Lemma checkEntry_plan bn l s :
  checkEntry Erigon bn l s
  = (runQueries Erigon bn (entryPlan bn l s) >> ret (entrySeen l s)).
Proof.
  unfold checkEntry, entryPlan, entrySeen.
  destruct (decide (log_Address l ∈ sawAddr s)); [done |].
  cbn [runQueries]. rewrite getLogsCall_eq. unfold verdict, checkNoDuplicates.
  destruct (Err (Erigon (getLogs _ _ _))); [done |].
  destruct (Error (Erigon (getLogs _ _ _))); [done |].
  rewrite bind_Done.
  destruct (length (Result (Erigon (getLogs _ _ _))) =? 0)%nat; [done |].
  destruct (noDuplicates (Result (Erigon (getLogs _ _ _)))); [done |].
  rewrite bind_ret_l. cbn [option_map].
  destruct (log_Topics l) as [|topic0 ?]; [done |]. cbn [sawTopic sawAddr].
  destruct (decide (topic0 ∈ sawTopic s)); [done |].
  cbn [runQueries]. rewrite getLogsCall_eq. unfold verdict.
  destruct (Err (Erigon (getLogs1 _ _ _ _))); [done |].
  destruct (Error (Erigon (getLogs1 _ _ _ _))); [done |].
  rewrite bind_Done.
  destruct (length (Result (Erigon (getLogs1 _ _ _ _))) =? 0)%nat; [done |].
  by destruct (noDuplicates (Result (Erigon (getLogs1 _ _ _ _)))).
Qed.

Lemma runQueries_app bn (p1 p2 : list Request) :
  runQueries Erigon bn (p1 ++ p2)
  = (runQueries Erigon bn p1 >> runQueries Erigon bn p2).
Proof.
  induction p1 as [|r p1 IH]; cbn [runQueries app]; [by rewrite bind_ret_l |].
  destruct (verdict bn r (Erigon r)); [done |].
  by rewrite IH, bind_assoc.
Qed.

Lemma checkEntries_plan bn logs : ∀ s,
  checkEntries Erigon bn logs s
  = (runQueries Erigon bn (entriesPlan bn logs s) >> ret (entriesSeen logs s)).
Proof.
  induction logs as [|l rest IH]; intros s;
    cbn [checkEntries entriesPlan entriesSeen runQueries];
    [by rewrite bind_ret_l |].
  rewrite checkEntry_plan, runQueries_app, !bind_assoc.
  f_equal. by rewrite bind_ret_l, IH.
Qed.

Lemma checkBlock_plan bn :
  checkBlock Erigon bn = runQueries Erigon bn (blockPlan Erigon bn).
Proof.
  unfold checkBlock, blockPlan. cbn [runQueries].
  rewrite getLogsCall_eq. unfold verdict, checkNoDuplicates.
  destruct (Err (Erigon _)); [done |]. destruct (Error (Erigon _)); [done |].
  rewrite bind_Done. cbn beta.
  destruct (noDuplicates (Result (Erigon _))); [done |].
  cbn [option_map]. rewrite bind_Done.
  by rewrite bind_ret_l, checkEntries_plan, bind_ret_ret.
Qed.

(** *** Facts on [runQueries] *)

Lemma runQueries_cases bn (plan : list Request) :
  (runQueries Erigon bn plan = (Done tt, plan) ∧ Forall (passes Erigon bn) plan) ∨
  (∃ t0 r rest e,
     plan = t0 ++ r :: rest ∧ Forall (passes Erigon bn) t0 ∧
     verdict bn r (Erigon r) = Some e ∧
     runQueries Erigon bn plan = (Failed e, t0 ++ [r])).
Proof.
  induction plan as [|r plan IH]; [by left |]. cbn [runQueries].
  destruct (verdict bn r (Erigon r)) as [e|] eqn:Hv.
  - right. by exists [], r, plan, e.
  - destruct IH as [[-> Hall] | (t0 & r' & rest & e & -> & Hall & Hv' & ->)].
    + left. split; [done |]. by constructor.
    + right. exists (r :: t0), r', rest, e. repeat split; try done.
      by constructor.
Qed.

Lemma runQueries_not_Running bn plan :
  outcome (runQueries Erigon bn plan) ≠ Running.
Proof.
  destruct (runQueries_cases bn plan)
    as [[-> _] | (? & ? & ? & ? & _ & _ & _ & ->)]; done.
Qed.

(** A query of the trace whose reply fails a test ends the run with the
    error of that test. *)
Lemma runQueries_bad bn plan r e :
  r ∈ trace (runQueries Erigon bn plan) →
  verdict bn r (Erigon r) = Some e →
  outcome (runQueries Erigon bn plan) = Failed e
  ∧ last (trace (runQueries Erigon bn plan)) = Some r.
Proof.
  destruct (runQueries_cases bn plan)
    as [[-> Hall] | (t0 & r' & rest & e' & _ & Hall & Hv' & ->)];
    unfold trace, outcome; simpl; intros Hin Hv.
  - rewrite Forall_forall in Hall. apply Hall in Hin.
    unfold passes in Hin. congruence.
  - apply elem_of_app in Hin as [Hin | Hin%list_elem_of_singleton].
    + rewrite Forall_forall in Hall. apply Hall in Hin.
      unfold passes in Hin. congruence.
    + subst r'. rewrite last_snoc. split; congruence.
Qed.

Lemma runQueries_Done bn plan :
  outcome (runQueries Erigon bn plan) = Done tt →
  trace (runQueries Erigon bn plan) = plan ∧ Forall (passes Erigon bn) plan.
Proof.
  destruct (runQueries_cases bn plan)
    as [[-> Hall] | (? & ? & ? & ? & _ & _ & _ & ->)]; done.
Qed.

Lemma runQueries_trace_prefix bn plan :
  trace (runQueries Erigon bn plan) `prefix_of` plan.
Proof.
  destruct (runQueries_cases bn plan)
    as [[-> _] | (t0 & r & rest & e & -> & _ & _ & ->)]; unfold trace; simpl.
  - done.
  - exists rest. by rewrite <- app_assoc.
Qed.


End BlockCheck.

(** ** The queries of a block: which, and how often *)

Section Plan.

Implicit Types (bn : Z) (l : Log) (logs : list Log) (s : Seen) (r : Request).

Lemma entrySeen_sawAddr l s :
  sawAddr (entrySeen l s) = {[log_Address l]} ∪ sawAddr s.
Proof.
  unfold entrySeen. destruct (decide (log_Address l ∈ sawAddr s)); [set_solver |].
  destruct (log_Topics l) as [|topic0 ?]; [done |]. cbn [sawTopic sawAddr].
  by destruct (decide (topic0 ∈ sawTopic s)).
Qed.

Lemma entryPlan_addrQueries bn l s :
  addrQueries (entryPlan bn l s)
  = if decide (log_Address l ∈ sawAddr s) then [] else [log_Address l].
Proof.
  unfold entryPlan. destruct (decide (log_Address l ∈ sawAddr s)); [done |].
  destruct (log_Topics l) as [|topic0 ?]; [done |].
  by destruct (decide (topic0 ∈ sawTopic s)).
Qed.




Lemma entryPlan_shape bn l s r :
  r ∈ entryPlan bn l s →
  r = getLogs bn bn (log_Address l)
  ∨ ∃ topic, head (log_Topics l) = Some topic
             ∧ r = getLogs1 bn bn (log_Address l) topic.
Proof.
  unfold entryPlan. destruct (decide (log_Address l ∈ sawAddr s)).
  { by intros ?%elem_of_nil. }
  intros [->|Hin]%elem_of_cons; [by left |]. right.
  destruct (log_Topics l) as [|topic0 ?]; [by apply elem_of_nil in Hin |].
  destruct (decide (topic0 ∈ sawTopic s)); [by apply elem_of_nil in Hin |].
  apply list_elem_of_singleton in Hin as ->. by exists topic0.
Qed.




(** Every address of the log set is in the set of seen addresses or gets
    its query. *)
Lemma entriesPlan_addresses bn logs : ∀ s l,
  l ∈ logs →
  log_Address l ∈ sawAddr s ∨ getLogs bn bn (log_Address l) ∈ entriesPlan bn logs s.
Proof.
  induction logs as [|l0 logs IH]; intros s l Hin; [by apply elem_of_nil in Hin |].
  simpl. apply elem_of_cons in Hin as [->|Hin].
  - unfold entryPlan. destruct (decide (log_Address l0 ∈ sawAddr s)); [by left |].
    right. apply elem_of_app. left. by left.
  - destruct (IH (entrySeen l0 s) l Hin) as [Hs|Hp].
    + rewrite entrySeen_sawAddr in Hs.
      apply elem_of_union in Hs as [Hs%elem_of_singleton|Hs]; [|by left].
      rewrite Hs. unfold entryPlan.
      destruct (decide (log_Address l0 ∈ sawAddr s)); [by left |].
      right. apply elem_of_app. left. by left.
    + right. apply elem_of_app. by right.
Qed.

(** No address is queried twice, and none that was seen before. *)
Lemma entriesPlan_addrQueries_NoDup bn logs : ∀ s,
  NoDup (addrQueries (entriesPlan bn logs s))
  ∧ ∀ a, a ∈ addrQueries (entriesPlan bn logs s) → a ∉ sawAddr s.
Proof.
  induction logs as [|l logs IH]; intros s; simpl.
  { split; [constructor | by intros ? ?%elem_of_nil]. }
  unfold addrQueries in *. rewrite omap_app.
  fold (addrQueries (entryPlan bn l s)). rewrite entryPlan_addrQueries.
  destruct (IH (entrySeen l s)) as [Hnd Hfresh].
  setoid_rewrite entrySeen_sawAddr in Hfresh.
  destruct (decide (log_Address l ∈ sawAddr s)); simpl.
  - split; [done |]. intros a Ha. specialize (Hfresh a Ha). set_solver.
  - split.
    + apply NoDup_cons_2; [|done]. intros Ha. specialize (Hfresh _ Ha). set_solver.
    + intros a [->|Ha]%elem_of_cons; [done |]. specialize (Hfresh a Ha). set_solver.
Qed.


(** The queries of the plan are filtered queries of block [bn]. *)
Lemma entriesPlan_shape bn logs : ∀ s r,
  r ∈ entriesPlan bn logs s →
  ∃ l, l ∈ logs ∧
    (r = getLogs bn bn (log_Address l)
     ∨ ∃ topic, head (log_Topics l) = Some topic
                ∧ r = getLogs1 bn bn (log_Address l) topic).
Proof.
  induction logs as [|l logs IH]; intros s r Hin; [by apply elem_of_nil in Hin |].
  simpl in Hin. apply elem_of_app in Hin as [Hin|Hin].
  - exists l. split; [by left | by eapply entryPlan_shape].
  - destruct (IH _ _ Hin) as (l' & ? & ?). exists l'. split; [by right | done].
Qed.

End Plan.

(** ** The check of one block *)

Section BlockClaims.

Variable Erigon : Request → Reply.
Implicit Types (bn : Z) (l : Log) (logs : list Log) (s : Seen) (r : Request).






Lemma passes_filtered_nonempty bn r :
  isFiltered r = true → passes Erigon bn r → Result (Erigon r) ≠ [].
Proof.
  unfold passes, verdict. intros Hf Hv Hnil. rewrite Hnil in Hv.
  destruct (Err (Erigon r)); [done |]. destruct (Error (Erigon r)); [done |].
  by destruct r.
Qed.




(** C8. When the unfiltered log set of block [bn] has a repeated log index,
    the check of the block fails with the duplicate-index error that names
    [bn] and a repeated index, and the unfiltered query is the only request
    of the block: no filtered query is sent, and the iteration ends there. *)
Theorem checkBlock_duplicate_index (selectCase : Z → SelectCase) bn :
  let unfiltered := Erigon (getLogsNoFilters bn bn) in
  Err unfiltered = None → Error unfiltered = None →
  (∃ d, repeated d (map log_Index (Result unfiltered))) →
  ∃ d, repeated d (map log_Index (Result unfiltered))
       ∧ checkBlock Erigon bn
         = (Failed (ErrAtBlock bn (ErrDuplicated d)), [getLogsNoFilters bn bn])
       ∧ blockBody Erigon selectCase bn
         = (Failed (ErrAtBlock bn (ErrDuplicated d)), [getLogsNoFilters bn bn]).
Proof.
  intros unfiltered He1 He2 [d Hd].
  destruct (noDuplicates (Result unfiltered)) as [e|] eqn:Hnd.
  - apply noDuplicates_Some in Hnd as Hrep. destruct Hrep as (d' & -> & Hd').
    exists d'. split; [done |].
    assert (checkBlock Erigon bn
            = (Failed (ErrAtBlock bn (ErrDuplicated d')), [getLogsNoFilters bn bn]))
      as Hrun.
    { rewrite checkBlock_plan. unfold blockPlan. cbn [runQueries].
      unfold verdict. fold unfiltered. by rewrite He1, He2, Hnd. }
    split; [done |]. unfold blockBody. by rewrite Hrun.
  - apply noDuplicates_None in Hnd. by apply repeated_not_NoDup in Hd.
Qed.

(** C9, as the code has it.  A transport error or an RPC error response to
    any query sent while checking block [bn] ends the check of the block
    with a failure, and that query is the last one sent; the failure carries
    the transport error, or the code and the message of the RPC error, and
    no block number. *)
Theorem checkBlock_query_error bn r :
  let run := checkBlock Erigon bn in
  r ∈ trace run →
  (∀ e, Err (Erigon r) = Some e →
        outcome run = Failed (ErrCouldNotGet e) ∧ last (trace run) = Some r) ∧
  (∀ e, Err (Erigon r) = None → Error (Erigon r) = Some e →
        outcome run = Failed (ErrGetting (Code e) (Message e))
        ∧ last (trace run) = Some r) ∧
  (Err (Erigon r) ≠ None ∨ Error (Erigon r) ≠ None →
   ∃ e, outcome run = Failed e ∧ error_blockNum e = None).
Proof.
  intros run Hin. subst run. rewrite checkBlock_plan in *.
  assert (H1 : ∀ e, Err (Erigon r) = Some e →
    outcome (runQueries Erigon bn (blockPlan Erigon bn)) = Failed (ErrCouldNotGet e)
    ∧ last (trace (runQueries Erigon bn (blockPlan Erigon bn))) = Some r).
  { intros e He. apply runQueries_bad; [done |]. unfold verdict. by rewrite He. }
  assert (H2 : ∀ e, Err (Erigon r) = None → Error (Erigon r) = Some e →
    outcome (runQueries Erigon bn (blockPlan Erigon bn))
    = Failed (ErrGetting (Code e) (Message e))
    ∧ last (trace (runQueries Erigon bn (blockPlan Erigon bn))) = Some r).
  { intros e He1 He2. apply runQueries_bad; [done |]. unfold verdict.
    by rewrite He1, He2. }
  split; [done |]. split; [done |].
  intros Hbad. destruct (Err (Erigon r)) as [e|] eqn:He1.
  - destruct (H1 e eq_refl) as [-> _]. by eexists.
  - destruct (Error (Erigon r)) as [e|] eqn:He2; [|by destruct Hbad].
    destruct (H2 e eq_refl eq_refl) as [-> _]. by eexists.
Qed.

End BlockClaims.

(** *** The scenarios of the block check *)




(** Block 7 of the specification with its entries in the other order: the
    entry without topics is checked, the entry with topic 9 is skipped. *)
Example checkBlock_block7_other_order :
  checkBlock scenarioNode' 7 = (Done tt, [getLogsNoFilters 7 7; getLogs 7 7 12]).
Proof. reflexivity. Qed.


(** Block 5 of the specification: index 0 twice. *)
Lemma checkBlock_duplicate_index_block5 :
  (∃ d, repeated d (map log_Index (Result (scenarioNode (getLogsNoFilters 5 5))))
        ∧ checkBlock scenarioNode 5
          = (Failed (ErrAtBlock 5 (ErrDuplicated d)), [getLogsNoFilters 5 5])
        ∧ blockBody scenarioNode neverDone 5
          = (Failed (ErrAtBlock 5 (ErrDuplicated d)), [getLogsNoFilters 5 5]))
  ∧ checkBlock scenarioNode 5
    = (Failed (ErrAtBlock 5 (ErrDuplicated 0)), [getLogsNoFilters 5 5]).
Proof.
  split; [|reflexivity].
  apply (checkBlock_duplicate_index scenarioNode neverDone 5 eq_refl eq_refl).
  exists 0%N, 0%nat, 1%nat. repeat split. discriminate.
Defined.

(** The query of block 10 fails in the transport and that of block 11 with
    an RPC error: the failures of the two checks print no block number. *)
Lemma checkBlock_query_error_names_no_block :
  (Err (scenarioNode (getLogsNoFilters 10 10)) = Some "timeout"%string
   ∧ checkBlock scenarioNode 10
     = (Failed (ErrCouldNotGet "timeout"), [getLogsNoFilters 10 10])
   ∧ error_blockNum (ErrCouldNotGet "timeout") = None)
  ∧
  (Error (scenarioNode (getLogsNoFilters 11 11))
   = Some (mkEthError (-32000) "header not found")
   ∧ checkBlock scenarioNode 11
     = (Failed (ErrGetting (-32000) "header not found"), [getLogsNoFilters 11 11])
   ∧ error_blockNum (ErrGetting (-32000) "header not found") = None).
Proof. repeat split. Qed.

Lemma checkBlock_query_error_block10 :
  outcome (checkBlock scenarioNode 10) = Failed (ErrCouldNotGet "timeout")
  ∧ last (trace (checkBlock scenarioNode 10)) = Some (getLogsNoFilters 10 10).
Proof.
  assert (Hin : getLogsNoFilters 10 10 ∈ trace (checkBlock scenarioNode 10))
    by (vm_compute; left).
  destruct (checkBlock_query_error scenarioNode 10 _ Hin) as (H1 & _ & _).
  exact (H1 "timeout"%string eq_refl).
Defined.

(** ** The range driver *)

Section Range.

Variable Erigon : Request → Reply.
Variable selectCase : Z → SelectCase.
Implicit Types (bn : Z) (n k fuel : nat).

Let body := blockBody Erigon selectCase.
Let blocks := blocksFrom Erigon selectCase.
Let batch := batchLoop Erigon selectCase.
Let range := rangeLoop Erigon selectCase.

Lemma blocksFrom_S n bn :
  blocks (S n) bn = (body bn >> blocks n (bn + 1)).
Proof. done. Qed.

(** The inner loop over a batch that does not reach the end of the uint64
    range is the flat sequence of its blocks. *)
Lemma batchLoop_blocksFrom k : ∀ bn,
  0 ≤ bn → bn + Z.of_nat k < uint64_modulus →
  batch k bn = (blocks k bn >> ret (bn + Z.of_nat k)).
Proof.
  induction k as [|k IH]; intros bn Hbn Hlt.
  - unfold batch, blocks; cbn [batchLoop blocksFrom].
    rewrite bind_ret_l. f_equal. f_equal. lia.
  - unfold batch; cbn [batchLoop]; fold batch. rewrite blocksFrom_S, bind_assoc.
    rewrite Z.mod_small by lia. rewrite IH by lia.
    replace (bn + 1 + Z.of_nat k) with (bn + Z.of_nat (S k)) by lia. done.
Qed.

Lemma blocksFrom_app k : ∀ n bn,
  blocks (k + n) bn = (blocks k bn >> blocks n (bn + Z.of_nat k)).
Proof.
  induction k as [|k IH]; intros n bn.
  - unfold blocks; cbn [Nat.add blocksFrom]. rewrite bind_ret_l. f_equal. lia.
  - cbn [Nat.add]. rewrite !blocksFrom_S, IH, bind_assoc.
    replace (bn + 1 + Z.of_nat k) with (bn + Z.of_nat (S k)) by lia. done.
Qed.

(** With enough fuel, the driver over a range that ends at least 10 below
    the end of the uint64 range is the flat sequence of the blocks of the
    range: the batches do not show. *)
Lemma rangeLoop_blocksFrom blockTo fuel : ∀ bn,
  0 ≤ bn ≤ blockTo → blockTo ≤ uint64_modulus - 10 →
  (Z.to_nat (blockTo - bn) < fuel)%nat →
  range fuel bn blockTo = blocks (Z.to_nat (blockTo - bn)) bn.
Proof.
  induction fuel as [|fuel IH]; intros bn Hbn Hto Hfuel; [lia |].
  unfold range; cbn [rangeLoop]; fold range batch. destruct (Z.ltb_spec bn blockTo) as [Hlt|Hge].
  - rewrite Z.mod_small by lia.
    set (batchEnd := Z.min (bn + 10) blockTo).
    assert (Hend : bn < batchEnd ≤ blockTo) by lia.
    rewrite batchLoop_blocksFrom by lia.
    rewrite bind_then_ret.
    replace (bn + Z.of_nat (Z.to_nat (batchEnd - bn))) with batchEnd by lia.
    rewrite IH by lia.
    replace (Z.to_nat (blockTo - bn))
      with (Z.to_nat (batchEnd - bn) + Z.to_nat (blockTo - batchEnd))%nat by lia.
    rewrite blocksFrom_app.
    by replace (bn + Z.of_nat (Z.to_nat (batchEnd - bn))) with batchEnd by lia.
  - by replace (Z.to_nat (blockTo - bn)) with 0%nat by lia.
Qed.

(** A range whose batch end wraps around: the inner loop has nothing to
    do, [bn] stays where it is, and the outer loop goes on for ever. *)
Lemma rangeLoop_wraps blockTo fuel bn :
  0 ≤ bn < blockTo → blockTo < uint64_modulus →
  uint64_modulus - 10 ≤ bn →
  range fuel bn blockTo = (Running, []).
Proof.
  intros Hbn Hto Hwrap. induction fuel as [|fuel IH]; [done |].
  unfold range; cbn [rangeLoop]; fold range batch. destruct (Z.ltb_spec bn blockTo) as [_|?]; [|lia].
  assert ((bn + 10) mod uint64_modulus = bn + 10 - uint64_modulus) as ->.
  { symmetry. apply (Z.mod_unique _ _ 1); unfold uint64_modulus in *; lia. }
  replace (Z.to_nat (Z.min (bn + 10 - uint64_modulus) blockTo - bn)) with 0%nat
    by (unfold uint64_modulus in *; lia).
  unfold batch; cbn [batchLoop]; fold batch. by rewrite bind_ret_l, IH.
Qed.

Lemma checkedBlocks_app (t1 t2 : list Request) :
  checkedBlocks (t1 ++ t2) = checkedBlocks t1 ++ checkedBlocks t2.
Proof. apply omap_app. Qed.

Lemma checkedBlocks_filtered (t : list Request) :
  Forall (fun r => isFiltered r = true) t → checkedBlocks t = [].
Proof.
  induction 1 as [|r t Hr _ IH]; [done |].
  destruct r; try discriminate; done.
Qed.

(** The check of block [bn] sends one unfiltered query, that of [bn]. *)
Lemma checkBlock_checkedBlocks bn :
  checkedBlocks (trace (checkBlock Erigon bn)) = [bn].
Proof.
  rewrite checkBlock_plan. unfold blockPlan. cbn [runQueries].
  destruct (verdict _ _ _); [done |]. rewrite bind_Done. unfold trace at 1.
  cbn [snd]. rewrite checkedBlocks_app, (checkedBlocks_filtered (trace _)); [done |].
  apply Forall_forall. intros r Hin.
  destruct (runQueries_trace_prefix Erigon bn
              (entriesPlan bn (Result (Erigon (getLogsNoFilters bn bn)))
                 (mkSeen ∅ ∅))) as [k Hk].
  assert (Hp : r ∈ entriesPlan bn (Result (Erigon (getLogsNoFilters bn bn)))
                 (mkSeen ∅ ∅)) by (rewrite Hk; apply elem_of_app; by left).
  apply entriesPlan_shape in Hp as (l & _ & [-> | (? & _ & ->)]); done.
Qed.

Lemma checkBlock_not_Running bn : outcome (checkBlock Erigon bn) ≠ Running.
Proof. rewrite checkBlock_plan. apply runQueries_not_Running. Qed.

(** One iteration: the outcome of the check, then that of the [select]. *)
Lemma blockBody_eq bn :
  body bn =
  (match outcome (checkBlock Erigon bn) with
   | Done _ =>
       match selectCase bn with
       | CaseDone e => Failed (ErrCtx e)
       | _ => Done tt
       end
   | o => o
   end, trace (checkBlock Erigon bn)).
Proof.
  unfold body, blockBody, pollContext.
  destruct (checkBlock Erigon bn) as [[[]|e|] t]; unfold outcome, trace; simpl;
    [|done..].
  destruct (selectCase bn); simpl; by rewrite ?app_nil_r.
Qed.

Lemma blockBody_checkedBlocks bn : checkedBlocks (trace (body bn)) = [bn].
Proof. rewrite blockBody_eq. apply checkBlock_checkedBlocks. Qed.

Lemma blockBody_not_Running bn : outcome (body bn) ≠ Running.
Proof.
  rewrite blockBody_eq. unfold outcome at 1. cbn [fst].
  pose proof (checkBlock_not_Running bn).
  destruct (outcome (checkBlock Erigon bn)); [|done..].
  by destruct (selectCase bn).
Qed.

Lemma blocksFrom_not_Running n : ∀ bn, outcome (blocks n bn) ≠ Running.
Proof.
  induction n as [|n IH]; intros bn; [done |]. rewrite blocksFrom_S.
  pose proof (blockBody_not_Running bn) as Hb. specialize (IH (bn + 1)).
  destruct (body bn) as [[[]|e|] t]; [|done..].
  by rewrite outcome_bind_Done.
Qed.

(** When the first [n] blocks pass, they are checked once each, in order. *)
Lemma blocksFrom_pass n : ∀ bn,
  (∀ i, (i < n)%nat → outcome (body (bn + Z.of_nat i)) = Done tt) →
  outcome (blocks n bn) = Done tt
  ∧ checkedBlocks (trace (blocks n bn)) = seqZ bn (Z.of_nat n).
Proof.
  induction n as [|n IH]; intros bn Hall; [done |]. rewrite blocksFrom_S.
  pose proof (Hall 0%nat ltac:(lia)) as H0. rewrite Z.add_0_r in H0.
  pose proof (blockBody_checkedBlocks bn) as Hc.
  destruct (IH (bn + 1)) as [Ho Ht].
  { intros i Hi. specialize (Hall (S i) ltac:(lia)).
    by replace (bn + 1 + Z.of_nat i) with (bn + Z.of_nat (S i)) by lia. }
  destruct (body bn) as [o t]. unfold outcome, trace in H0, Hc. simpl in H0, Hc.
  subst o. rewrite outcome_bind_Done, trace_bind_Done.
  split; [done |]. rewrite checkedBlocks_app, Hc, Ht.
  rewrite (seqZ_cons bn) by lia. simpl. do 2 f_equal; lia.
Qed.

(** The run stops at the first block that fails: it returns the failure of
    that block, and the blocks checked are those up to it. *)
Lemma blocksFrom_fail n : ∀ bn j e,
  (j < n)%nat →
  (∀ i, (i < j)%nat → outcome (body (bn + Z.of_nat i)) = Done tt) →
  outcome (body (bn + Z.of_nat j)) = Failed e →
  outcome (blocks n bn) = Failed e
  ∧ checkedBlocks (trace (blocks n bn)) = seqZ bn (Z.of_nat (S j)).
Proof.
  induction n as [|n IH]; intros bn j e Hj Hall Hfail; [lia |].
  rewrite blocksFrom_S. pose proof (blockBody_checkedBlocks bn) as Hc.
  destruct j as [|j].
  - rewrite Z.add_0_r in Hfail. destruct (body bn) as [o t].
    unfold outcome, trace in Hfail, Hc. simpl in Hfail, Hc. subst o.
    unfold outcome, trace. simpl. by rewrite Hc.
  - pose proof (Hall 0%nat ltac:(lia)) as H0. rewrite Z.add_0_r in H0.
    destruct (IH (bn + 1) j e) as [Ho Ht]; [lia | |  |].
    { intros i Hi. specialize (Hall (S i) ltac:(lia)).
      by replace (bn + 1 + Z.of_nat i) with (bn + Z.of_nat (S i)) by lia. }
    { by replace (bn + 1 + Z.of_nat j) with (bn + Z.of_nat (S j)) by lia. }
    destruct (body bn) as [o t]. unfold outcome, trace in H0, Hc.
    simpl in H0, Hc. subst o. rewrite outcome_bind_Done, trace_bind_Done.
    split; [done |]. rewrite checkedBlocks_app, Hc, Ht.
    rewrite (seqZ_cons bn) by lia. simpl. do 2 f_equal; lia.
Qed.

End Range.

(** *** The entry point *)

Lemma EthGetLogsInvariants_preflight Erigon selectCase fuel blockFrom blockTo :
  Err (Erigon blockNumber) = None → Error (Erigon blockNumber) = None →
  EthGetLogsInvariants Erigon selectCase fuel blockFrom blockTo
  = ((Done tt, [blockNumber]) >> rangeLoop Erigon selectCase fuel blockFrom blockTo).
Proof.
  intros He1 He2. unfold EthGetLogsInvariants, call.
  rewrite bind_Done, He1, He2. simpl.
  by destruct (rangeLoop Erigon selectCase fuel blockFrom blockTo).
Qed.

(** With enough fuel and a range that ends at least 10 below the end of the
    uint64 range, the entry point is the call of [eth_blockNumber] followed
    by the blocks of the range, one after the other. *)
Lemma EthGetLogsInvariants_flat Erigon selectCase fuel blockFrom blockTo :
  Err (Erigon blockNumber) = None → Error (Erigon blockNumber) = None →
  0 ≤ blockFrom ≤ blockTo → blockTo ≤ uint64_modulus - 10 →
  (Z.to_nat (blockTo - blockFrom) < fuel)%nat →
  EthGetLogsInvariants Erigon selectCase fuel blockFrom blockTo
  = ((Done tt, [blockNumber]) >>
     blocksFrom Erigon selectCase (Z.to_nat (blockTo - blockFrom)) blockFrom).
Proof.
  intros He1 He2 Hfrom Hto Hfuel.
  by rewrite EthGetLogsInvariants_preflight, rangeLoop_blocksFrom.
Qed.

(** X8. Range coverage: when no block of the range fails, every block of
    the range is checked once, in increasing order. *)
Lemma EthGetLogsInvariants_covers_range Erigon selectCase fuel blockFrom blockTo :
  let run := EthGetLogsInvariants Erigon selectCase fuel blockFrom blockTo in
  Err (Erigon blockNumber) = None → Error (Erigon blockNumber) = None →
  0 ≤ blockFrom ≤ blockTo → blockTo ≤ uint64_modulus - 10 →
  (Z.to_nat (blockTo - blockFrom) < fuel)%nat →
  (∀ bn, blockFrom ≤ bn < blockTo →
         outcome (blockBody Erigon selectCase bn) = Done tt) →
  outcome run = Done tt
  ∧ checkedBlocks (trace run) = seqZ blockFrom (blockTo - blockFrom)
  ∧ NoDup (checkedBlocks (trace run))
  ∧ Z.of_nat (length (checkedBlocks (trace run))) = blockTo - blockFrom.
Proof.
  intros run He1 He2 Hfrom Hto Hfuel Hall. subst run.
  rewrite EthGetLogsInvariants_flat by done.
  rewrite outcome_bind_Done, trace_bind_Done.
  destruct (blocksFrom_pass Erigon selectCase
              (Z.to_nat (blockTo - blockFrom)) blockFrom) as [Ho Ht].
  { intros i Hi. apply Hall. lia. }
  split; [done |]. simpl. rewrite Ht, Z2Nat.id by lia.
  split; [done |]. split; [apply NoDup_seqZ |]. rewrite length_seqZ. lia.
Qed.

(** The range 100..130 of the specification, on a node whose blocks hold no
    log: three batches, thirty blocks, each checked once. *)
Example EthGetLogsInvariants_100_130 :
  outcome (EthGetLogsInvariants quietNode neverDone 4 100 130) = Done tt
  ∧ checkedBlocks (trace (EthGetLogsInvariants quietNode neverDone 4 100 130))
    = seqZ 100 30
  ∧ length (checkedBlocks (trace (EthGetLogsInvariants quietNode neverDone 4 100 130)))
    = 30%nat.
Proof. repeat split. Qed.

(** C4, as the code has it.  When [blockFrom] equals [blockTo] the entry
    point makes one RPC call, [eth_blockNumber], and no log query; it returns
    success when that call succeeds, and the failure of that call when it
    does not. *)
Theorem EthGetLogsInvariants_empty_range Erigon selectCase fuel bn :
  let run := EthGetLogsInvariants Erigon selectCase fuel bn bn in
  (0 < fuel)%nat →
  trace run = [blockNumber]
  ∧ checkedBlocks (trace run) = []
  ∧ (Err (Erigon blockNumber) = None → Error (Erigon blockNumber) = None →
     outcome run = Done tt)
  ∧ (∀ e, Err (Erigon blockNumber) = Some e →
          outcome run = Failed (ErrCouldNotGetBlockNumber e))
  ∧ (∀ e, Err (Erigon blockNumber) = None → Error (Erigon blockNumber) = Some e →
          outcome run = Failed (ErrGettingBlockNumber (Code e) (Message e))).
Proof.
  intros run Hfuel. subst run. destruct fuel as [|fuel]; [lia |].
  unfold EthGetLogsInvariants, call. rewrite bind_Done. cbn [rangeLoop].
  rewrite Z.ltb_irrefl.
  destruct (Err (Erigon blockNumber)) as [e1|];
    [|destruct (Error (Erigon blockNumber)) as [e2|]];
    unfold outcome, trace; simpl; repeat split; try done; congruence.
Qed.

Lemma EthGetLogsInvariants_empty_range_0_0 :
  trace (EthGetLogsInvariants quietNode neverDone 1 0 0) = [blockNumber]
  ∧ outcome (EthGetLogsInvariants quietNode neverDone 1 0 0) = Done tt.
Proof.
  destruct (EthGetLogsInvariants_empty_range quietNode neverDone 1 0)
    as (Ht & _ & Ho & _); [lia |].
  split; [exact Ht | exact (Ho eq_refl eq_refl)].
Defined.

(** With [blockFrom = blockTo = 0] the entry point has made one RPC call
    when it returns, and it returns a failure when that call fails. *)
Lemma EthGetLogsInvariants_empty_range_calls_node :
  EthGetLogsInvariants quietNode neverDone 1 0 0 = (Done tt, [blockNumber])
  ∧ length (trace (EthGetLogsInvariants quietNode neverDone 1 0 0)) = 1%nat
  ∧ EthGetLogsInvariants offlineNode neverDone 1 0 0
    = (Failed (ErrCouldNotGetBlockNumber "connection refused"), [blockNumber]).
Proof. repeat split. Qed.

(** C5, where the code departs from it.  Range coverage (the driver checks
    each block of [blockFrom, blockTo) once, in batches of 10) fails at the
    end of the uint64 range: for [blockFrom = 2^64 - 5] and
    [blockTo = 2^64 - 1], [bn + 10] wraps around to 5, the batch is empty and
    [bn] never advances; whatever the fuel, the run has not returned and has
    checked none of the 4 blocks of the range. *)
Theorem EthGetLogsInvariants_spins_at_wrap :
  ∀ fuel,
    EthGetLogsInvariants quietNode neverDone fuel
      18446744073709551611 18446744073709551615
    = (Running, [blockNumber])
    ∧ checkedBlocks
        (trace (EthGetLogsInvariants quietNode neverDone fuel
                  18446744073709551611 18446744073709551615)) = [].
Proof.
  intros fuel. rewrite EthGetLogsInvariants_preflight by done.
  rewrite rangeLoop_wraps by (unfold uint64_modulus; lia). done.
Qed.

(** C6, as the code has it.  Provided the call of [eth_blockNumber]
    succeeds, for a range that ends at least 10 below the end of the uint64
    range and with enough fuel: the entry point returns success when every
    block of the range passes its check and the context is not found done
    after any of them, and then every block has been checked; when some
    block fails its check or the context is found done after it, the entry
    point returns the failure of the first such block, and the blocks
    checked are those up to that block and none after it; in every case it
    returns, with success or with one failure. *)
Theorem EthGetLogsInvariants_fail_fast Erigon selectCase fuel blockFrom blockTo :
  let run := EthGetLogsInvariants Erigon selectCase fuel blockFrom blockTo in
  Err (Erigon blockNumber) = None → Error (Erigon blockNumber) = None →
  0 ≤ blockFrom ≤ blockTo → blockTo ≤ uint64_modulus - 10 →
  (Z.to_nat (blockTo - blockFrom) < fuel)%nat →
  ((∀ bn, blockFrom ≤ bn < blockTo →
          outcome (checkBlock Erigon bn) = Done tt
          ∧ ∀ e, selectCase bn ≠ CaseDone e) →
   outcome run = Done tt
   ∧ checkedBlocks (trace run) = seqZ blockFrom (blockTo - blockFrom))
  ∧ (∀ bn e,
       blockFrom ≤ bn < blockTo →
       (∀ bn', blockFrom ≤ bn' < bn →
               outcome (blockBody Erigon selectCase bn') = Done tt) →
       outcome (blockBody Erigon selectCase bn) = Failed e →
       outcome run = Failed e
       ∧ checkedBlocks (trace run) = seqZ blockFrom (bn - blockFrom + 1)
       ∧ ∀ bn', bn' ∈ checkedBlocks (trace run) → bn' ≤ bn)
  ∧ (outcome run = Done tt ∨ ∃ e, outcome run = Failed e).
Proof.
  intros run He1 He2 Hfrom Hto Hfuel. subst run.
  rewrite EthGetLogsInvariants_flat by done.
  rewrite outcome_bind_Done, trace_bind_Done.
  set (n := Z.to_nat (blockTo - blockFrom)).
  split; [|split].
  - intros Hall.
    destruct (blocksFrom_pass Erigon selectCase n blockFrom) as [Ho Ht].
    { intros i Hi. rewrite blockBody_eq. unfold outcome at 1. cbn [fst].
      destruct (Hall (blockFrom + Z.of_nat i) ltac:(lia)) as [-> Hsel].
      destruct (selectCase _) as [|e|]; [done | by destruct (Hsel e) | done]. }
    split; [done |]. simpl. rewrite Ht. f_equal. lia.
  - intros bn e Hbn Hbefore Hfail.
    destruct (blocksFrom_fail Erigon selectCase n blockFrom
                (Z.to_nat (bn - blockFrom)) e) as [Ho Ht]; [lia | | |].
    { intros i Hi. apply Hbefore. lia. }
    { by replace (blockFrom + Z.of_nat (Z.to_nat (bn - blockFrom))) with bn by lia. }
    split; [done |]. simpl. rewrite Ht.
    replace (Z.of_nat (S (Z.to_nat (bn - blockFrom)))) with (bn - blockFrom + 1)
      by lia.
    split; [done |]. intros bn' Hin%elem_of_seqZ. lia.
  - pose proof (blocksFrom_not_Running Erigon selectCase n blockFrom) as Hr.
    destruct (outcome (blocksFrom Erigon selectCase n blockFrom)) as [[]|e|];
      [by left | right; by exists e | done].
Qed.

(** Blocks 5 to 7 of the scenarios: block 5 fails, blocks 6 and 7 are not
    checked. *)
Lemma EthGetLogsInvariants_fail_fast_5_8 :
  outcome (EthGetLogsInvariants scenarioNode neverDone 4 5 8)
  = Failed (ErrAtBlock 5 (ErrDuplicated 0))
  ∧ checkedBlocks (trace (EthGetLogsInvariants scenarioNode neverDone 4 5 8))
    = seqZ 5 (5 - 5 + 1)
  ∧ ∀ bn', bn' ∈ checkedBlocks
                   (trace (EthGetLogsInvariants scenarioNode neverDone 4 5 8)) →
           bn' ≤ 5.
Proof.
  destruct (EthGetLogsInvariants_fail_fast scenarioNode neverDone 4 5 8
              eq_refl eq_refl) as (_ & Hfail & _);
    [lia | unfold uint64_modulus; lia | simpl; lia |].
  apply Hfail; [lia | intros; lia | reflexivity].
Defined.

(** Every block passes all its checks on these nodes, and the entry point
    returns a failure all the same: the call of [eth_blockNumber] has failed,
    or the context was found done after block 0. *)
Lemma EthGetLogsInvariants_fails_though_blocks_pass :
  (∀ bn, checkBlock noBlockNumberNode bn = (Done tt, [getLogsNoFilters bn bn]))
  ∧ EthGetLogsInvariants noBlockNumberNode neverDone 3 0 2
    = (Failed (ErrCouldNotGetBlockNumber "connection refused"), [blockNumber])
  ∧ (∀ bn, checkBlock quietNode bn = (Done tt, [getLogsNoFilters bn bn]))
  ∧ EthGetLogsInvariants quietNode (cancelledAt 0) 3 0 2
    = (Failed (ErrCtx Canceled), [blockNumber; getLogsNoFilters 0 0]).
Proof. repeat split. Qed.

(** ** Further properties of the duplicate check *)

Section LeastRepeated.

Implicit Types (l : list N) (logs : list Log).

Lemma repeated_elem_of d l : repeated d l → d ∈ l.
Proof. intros (i & _ & _ & Hi & _). by eapply list_elem_of_lookup_2. Qed.

Lemma repeated_cons_inv d a l :
  repeated d (a :: l) → (d = a ∧ a ∈ l) ∨ repeated d l.
Proof.
  intros (i & j & Hij & Hi & Hj).
  destruct i as [|i], j as [|j]; simpl in *; [done | | |].
  - left. injection Hi as ->. split; [done |]. by eapply list_elem_of_lookup_2.
  - left. injection Hj as ->. split; [done |]. by eapply list_elem_of_lookup_2.
  - right. exists i, j. split; [congruence | done].
Qed.

(** On an ascending list the scan stops at the least value that repeats. *)
Lemma scanIndices_least l :
  StronglySorted N.le l →
  ∀ d, scanIndices l = Some (ErrDuplicated d) →
       ∀ d', repeated d' l → (d ≤ d')%N.
Proof.
  induction 1 as [|a l Hs IH Hall]; [done |].
  destruct l as [|b l]; [done |]. cbn [scanIndices].
  intros d Hscan d' Hrep. apply Forall_cons in Hall as Hab. destruct Hab as [Hab _].
  destruct (N.eqb_spec a b) as [->|Hne].
  - injection Hscan as <-. apply repeated_elem_of in Hrep.
    apply elem_of_cons in Hrep as [->|Hin]; [done |].
    rewrite Forall_forall in Hall. by apply Hall.
  - apply repeated_cons_inv in Hrep as [[-> Hin]|Hrep]; [|by eapply IH].
    apply StronglySorted_inv in Hs as [_ Hb]. rewrite Forall_forall in Hb.
    apply elem_of_cons in Hin as [->|Hin]; [done |].
    specialize (Hb _ Hin). lia.
Qed.

(** X1. The index that the error of the duplicate check names is the least
    index value that occurs twice in the log set. *)
Theorem noDuplicates_names_least_repeated logs e :
  noDuplicates logs = Some e →
  ∃ d, e = ErrDuplicated d
       ∧ repeated d (map log_Index logs)
       ∧ ∀ d', repeated d' (map log_Index logs) → (d ≤ d')%N.
Proof.
  intros He. destruct (noDuplicates_Some _ _ He) as (d & -> & Hd).
  exists d. split; [done |]. split; [done |]. intros d' Hd'.
  rewrite noDuplicates_scan in He.
  eapply (scanIndices_least (slices_Sort (map log_Index logs))); [|done|].
  - apply Sorted_StronglySorted; [apply _ | apply slices_Sort_Sorted].
  - eapply repeated_Permutation; [|done]. symmetry. apply slices_Sort_Permutation.
Qed.

End LeastRepeated.

(** Indices 7, 2, 7, 2: both repeat, the error names 2. *)
Lemma noDuplicates_names_least_repeated_7272 :
  ∃ d, ErrDuplicated 2 = ErrDuplicated d
       ∧ repeated d [7%N; 2%N; 7%N; 2%N]
       ∧ ∀ d', repeated d' [7%N; 2%N; 7%N; 2%N] → (d ≤ d')%N.
Proof.
  apply (noDuplicates_names_least_repeated
           [mkLog 1 [] 7; mkLog 1 [] 2; mkLog 1 [] 7; mkLog 1 [] 2]).
  reflexivity.
Defined.

(** ** Further properties of the check of one block *)

Section BlockExtras.

Variable Erigon : Request → Reply.
Implicit Types (bn : Z) (l : Log) (logs : list Log) (s : Seen) (r : Request).

Lemma trace_bind {A B} (m : M A) (k : A → M B) :
  trace (bind m k)
  = trace m ++ match outcome m with Done a => trace (k a) | _ => [] end.
Proof.
  destruct m as [[a|e|] t]; unfold trace, outcome; simpl;
    [by destruct (k a) | by rewrite app_nil_r..].
Qed.

(** The queries that the check of block [bn] sends: the unfiltered query of
    [bn], and filtered queries of [bn] on the address, or the address and the
    first topic, of an entry of the unfiltered result. *)
Lemma checkBlock_trace_shape bn r :
  r ∈ trace (checkBlock Erigon bn) →
  r = getLogsNoFilters bn bn
  ∨ ∃ l, l ∈ Result (Erigon (getLogsNoFilters bn bn))
         ∧ (r = getLogs bn bn (log_Address l)
            ∨ ∃ topic, head (log_Topics l) = Some topic
                       ∧ r = getLogs1 bn bn (log_Address l) topic).
Proof.
  rewrite checkBlock_plan. intros Hin.
  destruct (runQueries_trace_prefix Erigon bn (blockPlan Erigon bn)) as [k Hk].
  assert (Hp : r ∈ blockPlan Erigon bn) by (rewrite Hk; apply elem_of_app; by left).
  unfold blockPlan in Hp. apply elem_of_cons in Hp as [->|Hp]; [by left |].
  right. by eapply entriesPlan_shape.
Qed.

Lemma checkBlock_trace_head bn :
  head (trace (checkBlock Erigon bn)) = Some (getLogsNoFilters bn bn).
Proof.
  rewrite checkBlock_plan. unfold blockPlan. cbn [runQueries].
  destruct (verdict _ _ _); [done |]. by rewrite trace_bind.
Qed.

(** In the trace of the entries, a topic query comes with the address query
    of the same address. *)
Lemma runQueries_entryPlan_paired bn l s a topic :
  getLogs1 bn bn a topic ∈ trace (runQueries Erigon bn (entryPlan bn l s)) →
  getLogs bn bn a ∈ trace (runQueries Erigon bn (entryPlan bn l s)).
Proof.
  unfold entryPlan. destruct (decide (log_Address l ∈ sawAddr s)).
  { by intros ?%elem_of_nil. }
  cbn [runQueries]. destruct (verdict bn (getLogs _ _ _) _).
  { intros [=]%list_elem_of_singleton. }
  rewrite trace_bind. unfold trace at 1, outcome. cbn [fst snd].
  intros [[=]%list_elem_of_singleton|Hin]%elem_of_app.
  destruct (log_Topics l) as [|topic0 ?]; [by apply elem_of_nil in Hin |].
  destruct (decide (topic0 ∈ sawTopic s)); [by apply elem_of_nil in Hin |].
  assert (a = log_Address l) as ->.
  { cbn [runQueries] in Hin. destruct (verdict bn (getLogs1 _ _ _ _) _).
    - apply list_elem_of_singleton in Hin. congruence.
    - rewrite trace_bind in Hin. unfold trace at 1, outcome in Hin.
      simpl in Hin. apply list_elem_of_singleton in Hin. congruence. }
  apply elem_of_app. left. by left.
Qed.

Lemma runQueries_entriesPlan_paired bn a topic logs : ∀ s,
  getLogs1 bn bn a topic ∈ trace (runQueries Erigon bn (entriesPlan bn logs s)) →
  getLogs bn bn a ∈ trace (runQueries Erigon bn (entriesPlan bn logs s)).
Proof.
  induction logs as [|l logs IH]; intros s; [by intros ?%elem_of_nil |].
  cbn [entriesPlan]. rewrite runQueries_app, trace_bind.
  intros [Hin|Hin]%elem_of_app; apply elem_of_app.
  - left. by eapply runQueries_entryPlan_paired.
  - right. destruct (outcome _); [by eapply IH | by apply elem_of_nil in Hin..].
Qed.

(** X2. What the check of a block never sends: every query of the check of
    block [bn] is the unfiltered query of [bn], which comes first, or a
    query of [bn] filtered by the address, or by the address and the first
    topic, of an entry of the unfiltered result; and a topic query is sent
    only when the address query of the same address has been sent. *)
Theorem checkBlock_queries_in_scope bn :
  let run := checkBlock Erigon bn in
  head (trace run) = Some (getLogsNoFilters bn bn)
  ∧ (∀ r, r ∈ trace run →
       r = getLogsNoFilters bn bn
       ∨ ∃ l, l ∈ Result (Erigon (getLogsNoFilters bn bn))
              ∧ (r = getLogs bn bn (log_Address l)
                 ∨ ∃ topic, head (log_Topics l) = Some topic
                            ∧ r = getLogs1 bn bn (log_Address l) topic))
  ∧ (∀ a topic, getLogs1 bn bn a topic ∈ trace run → getLogs bn bn a ∈ trace run).
Proof.
  split; [apply checkBlock_trace_head |]. split; [apply checkBlock_trace_shape |].
  intros a topic. rewrite checkBlock_plan. unfold blockPlan. cbn [runQueries].
  destruct (verdict _ _ _); [intros [=]%list_elem_of_singleton |].
  rewrite trace_bind. unfold trace at 1 3, outcome. cbn [fst snd].
  intros [[=]%list_elem_of_singleton|Hin]%elem_of_app.
  apply elem_of_app. right. by eapply runQueries_entriesPlan_paired.
Qed.

Lemma repeated_length d (l : list N) : repeated d l → (2 ≤ length l)%nat.
Proof.
  intros (i & j & Hij & Hi%lookup_lt_Some & Hj%lookup_lt_Some). lia.
Qed.

(** X3. A repeated log index in the result of a query sent for block [bn]
    ends the check there, with the error of the duplicate check wrapped with
    [bn] and, after an address query, the address, after a topic query, the
    topic (and not the address); the index named is one that repeats. *)
Theorem checkBlock_duplicate_in_reply bn r :
  let run := checkBlock Erigon bn in
  r ∈ trace run →
  Err (Erigon r) = None → Error (Erigon r) = None →
  (∃ d, repeated d (map log_Index (Result (Erigon r)))) →
  ∃ d, repeated d (map log_Index (Result (Erigon r)))
       ∧ outcome run = Failed (wrapDuplicated bn r (ErrDuplicated d))
       ∧ last (trace run) = Some r.
Proof.
  intros run Hin He1 He2 [d Hd]. subst run.
  destruct (noDuplicates (Result (Erigon r))) as [e|] eqn:Hnd.
  2: { apply noDuplicates_None in Hnd. by apply repeated_not_NoDup in Hd. }
  apply noDuplicates_Some in Hnd as Hrep. destruct Hrep as (d' & -> & Hd').
  exists d'. split; [done |].
  assert (Hlen : (length (Result (Erigon r)) =? 0)%nat = false).
  { apply repeated_length in Hd. rewrite length_map in Hd.
    apply Nat.eqb_neq. lia. }
  assert (Hv : verdict bn r (Erigon r)
               = Some (wrapDuplicated bn r (ErrDuplicated d'))).
  { unfold verdict. rewrite He1, He2, Hlen, Hnd.
    apply checkBlock_trace_shape in Hin
      as [->|(l & _ & [->|(topic & _ & ->)])]; done. }
  rewrite checkBlock_plan in *. by apply runQueries_bad.
Qed.

Lemma passes_inv bn r :
  passes Erigon bn r →
  Err (Erigon r) = None ∧ Error (Erigon r) = None
  ∧ (r ≠ blockNumber → NoDup (map log_Index (Result (Erigon r))))
  ∧ (isFiltered r = true → Result (Erigon r) ≠ []).
Proof.
  intros Hp. split; [|split; [|split]].
  - unfold passes, verdict in Hp. by destruct (Err (Erigon r)).
  - unfold passes, verdict in Hp. destruct (Err (Erigon r)); [done |].
    by destruct (Error (Erigon r)).
  - intros Hr. apply noDuplicates_None. unfold passes, verdict in Hp.
    destruct (Err (Erigon r)); [done |]. destruct (Error (Erigon r)); [done |].
    destruct r; [done | | |];
      try destruct (length (Result _) =? 0)%nat; try done;
      by destruct (noDuplicates (Result _)).
  - intros Hf. by apply (passes_filtered_nonempty Erigon bn).
Qed.

(** X4. What a passing block has had verified: the unfiltered query was
    answered without error by a log set without repeated index, and for
    every entry of it the query filtered by its address was answered without
    error by a non-empty log set without repeated index; every query sent
    was answered without error and without repeated index. *)
Theorem checkBlock_pass_sound bn :
  let run := checkBlock Erigon bn in
  let unfiltered := Erigon (getLogsNoFilters bn bn) in
  outcome run = Done tt →
  Err unfiltered = None ∧ Error unfiltered = None
  ∧ NoDup (map log_Index (Result unfiltered))
  ∧ (∀ l, l ∈ Result unfiltered →
          let byAddress := Erigon (getLogs bn bn (log_Address l)) in
          Err byAddress = None ∧ Error byAddress = None
          ∧ Result byAddress ≠ []
          ∧ NoDup (map log_Index (Result byAddress)))
  ∧ (∀ r, r ∈ trace run →
          Err (Erigon r) = None ∧ Error (Erigon r) = None
          ∧ NoDup (map log_Index (Result (Erigon r)))
          ∧ (isFiltered r = true → Result (Erigon r) ≠ [])).
Proof.
  intros run unfiltered Hdone. subst run. rewrite checkBlock_plan in *.
  apply runQueries_Done in Hdone as [Ht Hall]. rewrite Ht.
  rewrite Forall_forall in Hall.
  assert (Hunf : getLogsNoFilters bn bn ∈ blockPlan Erigon bn) by by left.
  destruct (passes_inv bn _ (Hall _ Hunf)) as (? & ? & Hnd & _).
  split; [done |]. split; [done |]. split; [by apply Hnd |]. split.
  - intros l Hl byAddress.
    assert (Hq : getLogs bn bn (log_Address l) ∈ blockPlan Erigon bn).
    { right. destruct (entriesPlan_addresses bn _ (mkSeen ∅ ∅) l Hl) as [Hs|Hp];
        [simpl in Hs; set_solver | done]. }
    destruct (passes_inv bn _ (Hall _ Hq)) as (? & ? & Hnd' & Hne).
    repeat split; [done | done | by apply Hne | by apply Hnd'].
  - intros r Hr. destruct (passes_inv bn _ (Hall _ Hr)) as (? & ? & Hnd' & Hne).
    repeat split; [done | done | | done]. apply Hnd'.
    unfold blockPlan in Hr. apply elem_of_cons in Hr as [->|Hr]; [done |].
    apply entriesPlan_shape in Hr as (l & _ & [->|(? & _ & ->)]); done.
Qed.

Lemma entryPlan_length bn l s :
  (length (entryPlan bn l s) ≤ 2 * length (addrQueries (entryPlan bn l s)))%nat.
Proof.
  unfold entryPlan. destruct (decide (log_Address l ∈ sawAddr s)); [done |].
  destruct (log_Topics l) as [|topic0 ?]; simpl; [lia |].
  destruct (decide (topic0 ∈ sawTopic s)); simpl; lia.
Qed.

Lemma entriesPlan_length bn logs : ∀ s,
  (length (entriesPlan bn logs s)
   ≤ 2 * length (addrQueries (entriesPlan bn logs s)))%nat.
Proof.
  induction logs as [|l logs IH]; intros s; [done |]. cbn [entriesPlan].
  unfold addrQueries in *. rewrite omap_app, !length_app.
  specialize (IH (entrySeen l s)). pose proof (entryPlan_length bn l s) as Hl.
  unfold addrQueries in Hl. lia.
Qed.

Lemma entriesPlan_addrQueries_subset bn logs s a :
  a ∈ addrQueries (entriesPlan bn logs s) → a ∈ map log_Address logs.
Proof.
  unfold addrQueries. rewrite list_elem_of_omap.
  intros (r & Hr & Ha). apply entriesPlan_shape in Hr as (l & Hl & [->|(? & _ & ->)]).
  - injection Ha as <-. by apply (list_elem_of_fmap_2 log_Address).
  - done.
Qed.

(** X5. The number of queries of the check of a block is at most one more
    than twice the number of distinct addresses of its unfiltered result. *)
Theorem checkBlock_query_budget bn :
  (length (trace (checkBlock Erigon bn))
   ≤ 1 + 2 * size (list_to_set
                     (map log_Address (Result (Erigon (getLogsNoFilters bn bn))))
                   : gset Address))%nat.
Proof.
  rewrite checkBlock_plan.
  pose proof (prefix_length _ _ (runQueries_trace_prefix Erigon bn
                                   (blockPlan Erigon bn))) as Hpre.
  unfold blockPlan in *. cbn [length] in Hpre.
  set (logs := Result (Erigon (getLogsNoFilters bn bn))) in *.
  pose proof (entriesPlan_length bn logs (mkSeen ∅ ∅)) as Hlen.
  destruct (entriesPlan_addrQueries_NoDup bn logs (mkSeen ∅ ∅)) as [Hnd _].
  assert (Hsub : (list_to_set (addrQueries (entriesPlan bn logs (mkSeen ∅ ∅)))
                  : gset N) ⊆ list_to_set (map log_Address logs)).
  { intros a Ha. apply elem_of_list_to_set in Ha. apply elem_of_list_to_set.
    by eapply entriesPlan_addrQueries_subset. }
  apply subseteq_size in Hsub. rewrite size_list_to_set in Hsub by done. lia.
Qed.

End BlockExtras.

Lemma checkBlock_duplicate_in_reply_blocks_3_4 :
  (∃ d, repeated d (map log_Index (Result (dupIndexNode (getLogs 3 3 10))))
        ∧ outcome (checkBlock dupIndexNode 3)
          = Failed (ErrAtBlockAddr 3 10 (ErrDuplicated d))
        ∧ last (trace (checkBlock dupIndexNode 3)) = Some (getLogs 3 3 10))
  ∧ (∃ d, repeated d (map log_Index (Result (dupIndexNode (getLogs1 4 4 10 1))))
          ∧ outcome (checkBlock dupIndexNode 4)
            = Failed (ErrAtBlockTopic 4 1 (ErrDuplicated d))
          ∧ last (trace (checkBlock dupIndexNode 4)) = Some (getLogs1 4 4 10 1)).
Proof.
  split.
  - apply (checkBlock_duplicate_in_reply dupIndexNode 3 (getLogs 3 3 10));
      [vm_compute; right; left | reflexivity | reflexivity |].
    exists 0%N, 0%nat, 1%nat. repeat split. discriminate.
  - apply (checkBlock_duplicate_in_reply dupIndexNode 4 (getLogs1 4 4 10 1));
      [vm_compute; right; right; left | reflexivity | reflexivity |].
    exists 0%N, 0%nat, 1%nat. repeat split. discriminate.
Defined.

Lemma checkBlock_pass_sound_block7 :
  NoDup (map log_Index (Result (scenarioNode (getLogsNoFilters 7 7))))
  ∧ Result (scenarioNode (getLogs 7 7 12)) ≠ [].
Proof.
  destruct (checkBlock_pass_sound scenarioNode 7 eq_refl)
    as (_ & _ & Hnd & Haddr & _).
  split; [exact Hnd |].
  destruct (Haddr (mkLog 12 [9%N] 0)) as (_ & _ & Hne & _); [left | exact Hne].
Defined.

Lemma checkBlock_queries_in_scope_block7 :
  getLogs 7 7 12 ∈ trace (checkBlock scenarioNode 7).
Proof.
  destruct (checkBlock_queries_in_scope scenarioNode 7) as (_ & _ & Hpaired).
  apply (Hpaired 12%N 9%N). vm_compute. right. right. left.
Defined.

(** ** Further properties of the range driver *)

Section RangeExtras.

Variable Erigon : Request → Reply.
Variable selectCase : Z → SelectCase.
Implicit Types (bn : Z) (n k fuel : nat).

Lemma outcome_bind {A B} (m : M A) (h : A → M B) :
  outcome (bind m h)
  = match outcome m with
    | Done a => outcome (h a)
    | Failed e => Failed e
    | Running => Running
    end.
Proof.
  destruct m as [[a|e|] t]; unfold outcome; simpl; [by destruct (h a) | done..].
Qed.

(** The blocks that a run of [k] blocks from [bn] has checked are the first
    [j] of them, all [k] when the run has passed. *)
Lemma blocksFrom_checked k : ∀ bn,
  ∃ j, (j ≤ k)%nat
       ∧ checkedBlocks (trace (blocksFrom Erigon selectCase k bn))
         = seqZ bn (Z.of_nat j)
       ∧ (outcome (blocksFrom Erigon selectCase k bn) = Done tt → j = k).
Proof.
  induction k as [|k IH]; intros bn; [by exists 0%nat |].
  cbn [blocksFrom]. rewrite trace_bind, outcome_bind, checkedBlocks_app.
  rewrite (blockBody_checkedBlocks Erigon selectCase bn).
  destruct (outcome (blockBody Erigon selectCase bn)) as [[]|e|].
  - destruct (IH (bn + 1)) as (j & Hj & Ht & Ho). exists (S j).
    split; [lia |]. split; [|intros ?; f_equal; by apply Ho].
    rewrite Ht, (seqZ_cons bn) by lia. simpl. do 2 f_equal; lia.
  - exists 1%nat. split; [lia |]. by split.
  - exists 1%nat. split; [lia |]. by split.
Qed.

(** Whatever the fuel and the outcome, the blocks that the driver has
    checked are consecutive from [bn] and below [blockTo]. *)
Lemma rangeLoop_checked blockTo fuel : ∀ bn,
  0 ≤ bn → blockTo < uint64_modulus →
  ∃ m, 0 ≤ m ≤ Z.max 0 (blockTo - bn)
       ∧ checkedBlocks (trace (rangeLoop Erigon selectCase fuel bn blockTo))
         = seqZ bn m.
Proof.
  induction fuel as [|fuel IH]; intros bn Hbn Hto; [exists 0; split; [lia | done] |].
  cbn [rangeLoop]. destruct (Z.ltb_spec bn blockTo) as [Hlt|Hge];
    [|exists 0; split; [lia | done]].
  set (batchEnd := Z.min ((bn + 10) mod uint64_modulus) blockTo).
  set (k := Z.to_nat (batchEnd - bn)).
  assert (Hk : Z.of_nat k ≤ blockTo - bn) by lia.
  rewrite batchLoop_blocksFrom by lia. rewrite bind_then_ret.
  rewrite trace_bind, checkedBlocks_app.
  destruct (blocksFrom_checked k bn) as (j & Hj & Ht & Ho). rewrite Ht.
  destruct (outcome (blocksFrom Erigon selectCase k bn)) as [[]|e|].
  - rewrite (Ho eq_refl) in *.
    destruct (IH (bn + Z.of_nat k)) as (m & Hm & Hc); [lia | done |].
    exists (Z.of_nat k + m). split; [lia |].
    rewrite Hc. symmetry. apply seqZ_app; lia.
  - exists (Z.of_nat j). split; [lia |]. by rewrite app_nil_r.
  - exists (Z.of_nat j). split; [lia |]. by rewrite app_nil_r.
Qed.

(** A range with a batch that starts in the last 10 values of the uint64
    range: the driver gets to that batch and stays there. *)
Lemma rangeLoop_never_returns blockTo k : ∀ fuel bn,
  0 ≤ bn → blockTo < uint64_modulus →
  uint64_modulus - 10 ≤ bn + 10 * Z.of_nat k < blockTo →
  (∀ bn', bn ≤ bn' < bn + 10 * Z.of_nat k →
          outcome (blockBody Erigon selectCase bn') = Done tt) →
  outcome (rangeLoop Erigon selectCase fuel bn blockTo) = Running.
Proof.
  induction k as [|k IH]; intros fuel bn Hbn Hto Hwrap Hpass.
  - by rewrite rangeLoop_wraps by lia.
  - destruct fuel as [|fuel]; [done |]. cbn [rangeLoop].
    destruct (Z.ltb_spec bn blockTo) as [_|?]; [|lia].
    rewrite Z.mod_small by lia.
    replace (Z.to_nat (Z.min (bn + 10) blockTo - bn)) with 10%nat by lia.
    rewrite batchLoop_blocksFrom by lia. rewrite bind_then_ret, outcome_bind.
    destruct (blocksFrom_pass Erigon selectCase 10 bn) as [-> _].
    { intros i Hi. apply Hpass. lia. }
    apply IH; [lia | done | lia |]. intros bn' Hbn'. apply Hpass. lia.
Qed.

End RangeExtras.

(** X6. Whatever the range of uint64 bounds, the fuel and the outcome, the
    blocks that the entry point has checked are consecutive block numbers
    from [blockFrom] on, each once, and all of them are in
    [blockFrom, blockTo): no block outside the range is ever checked, and
    none is checked when [blockTo <= blockFrom]. *)
Theorem EthGetLogsInvariants_checks_within_range
    Erigon selectCase fuel blockFrom blockTo :
  let run := EthGetLogsInvariants Erigon selectCase fuel blockFrom blockTo in
  0 ≤ blockFrom → blockTo < uint64_modulus →
  (∃ m, 0 ≤ m ≤ Z.max 0 (blockTo - blockFrom)
        ∧ checkedBlocks (trace run) = seqZ blockFrom m)
  ∧ NoDup (checkedBlocks (trace run))
  ∧ (∀ bn, bn ∈ checkedBlocks (trace run) → blockFrom ≤ bn < blockTo).
Proof.
  intros run Hfrom Hto.
  assert (Hm : ∃ m, 0 ≤ m ≤ Z.max 0 (blockTo - blockFrom)
                    ∧ checkedBlocks (trace run) = seqZ blockFrom m).
  { subst run. unfold EthGetLogsInvariants, call. rewrite trace_bind.
    unfold outcome at 1, trace at 1. cbn [fst snd].
    destruct (Err (Erigon blockNumber)); [exists 0; split; [lia | done] |].
    destruct (Error (Erigon blockNumber)); [exists 0; split; [lia | done] |].
    by apply rangeLoop_checked. }
  split; [done |]. destruct Hm as (m & Hm & ->).
  split; [apply NoDup_seqZ |]. intros bn Hin%elem_of_seqZ. lia.
Qed.

Lemma EthGetLogsInvariants_checks_within_range_5_8 :
  (∃ m, 0 ≤ m ≤ Z.max 0 (8 - 5)
        ∧ checkedBlocks (trace (EthGetLogsInvariants scenarioNode neverDone 2 5 8))
          = seqZ 5 m)
  ∧ NoDup (checkedBlocks (trace (EthGetLogsInvariants scenarioNode neverDone 2 5 8)))
  ∧ (∀ bn, bn ∈ checkedBlocks
                  (trace (EthGetLogsInvariants scenarioNode neverDone 2 5 8)) →
           5 ≤ bn < 8).
Proof.
  apply (EthGetLogsInvariants_checks_within_range scenarioNode neverDone 2 5 8);
    [lia | unfold uint64_modulus; lia].
Defined.

(** X7. A range in which a batch starts in the last 10 values of the uint64
    range (at [blockFrom + 10 k], below [blockTo]): when the blocks before
    that batch pass, the entry point does not return, whatever the fuel. *)
Theorem EthGetLogsInvariants_never_returns
    Erigon selectCase fuel blockFrom blockTo (k : nat) :
  Err (Erigon blockNumber) = None → Error (Erigon blockNumber) = None →
  0 ≤ blockFrom → blockTo < uint64_modulus →
  uint64_modulus - 10 ≤ blockFrom + 10 * Z.of_nat k < blockTo →
  (∀ bn, blockFrom ≤ bn < blockFrom + 10 * Z.of_nat k →
         outcome (blockBody Erigon selectCase bn) = Done tt) →
  outcome (EthGetLogsInvariants Erigon selectCase fuel blockFrom blockTo) = Running.
Proof.
  intros He1 He2 Hfrom Hto Hwrap Hpass.
  rewrite EthGetLogsInvariants_preflight, outcome_bind_Done by done.
  by apply (rangeLoop_never_returns Erigon selectCase blockTo k).
Qed.

(** Two full batches, then the batch that starts at 2^64 - 5. *)
Lemma EthGetLogsInvariants_never_returns_after_two_batches :
  outcome (EthGetLogsInvariants quietNode neverDone 7
             18446744073709551591 18446744073709551615) = Running.
Proof.
  apply (EthGetLogsInvariants_never_returns quietNode neverDone 7
           18446744073709551591 18446744073709551615 2);
    [reflexivity | reflexivity | lia | unfold uint64_modulus; lia
    | unfold uint64_modulus; lia | reflexivity].
Defined.

Lemma EthGetLogsInvariants_covers_range_100_130 :
  outcome (EthGetLogsInvariants quietNode neverDone 31 100 130) = Done tt
  ∧ checkedBlocks (trace (EthGetLogsInvariants quietNode neverDone 31 100 130))
    = seqZ 100 (130 - 100)
  ∧ NoDup (checkedBlocks (trace (EthGetLogsInvariants quietNode neverDone 31 100 130)))
  ∧ Z.of_nat (length (checkedBlocks
                        (trace (EthGetLogsInvariants quietNode neverDone 31 100 130))))
    = 130 - 100.
Proof.
  apply (EthGetLogsInvariants_covers_range quietNode neverDone 31 100 130);
    [reflexivity | reflexivity | lia | unfold uint64_modulus; lia
    | simpl; lia | reflexivity].
Defined.

(** ** [BenchEthGetLogs] *)

Section BenchMonad.

Context {A C : Type}.

Lemma bbind_fst (m : B A) (k : A → B C) :
  fst (bbind m k) =
  match fst m with
  | Next a => fst (k a)
  | Return e => Return e
  | Panic => Panic
  | Unfinished => Unfinished
  end.
Proof.
  destruct m as [[a| | |] t]; cbn; try reflexivity.
  destruct (k a); reflexivity.
Qed.

Lemma bbind_snd (m : B A) (k : A → B C) :
  snd (bbind m k) =
  snd m ++ match fst m with Next a => snd (k a) | _ => [] end.
Proof.
  destruct m as [[a| | |] t]; cbn; rewrite ?app_nil_r; try reflexivity.
  destruct (k a); reflexivity.
Qed.

Lemma bbind_bret (a : A) (k : A → B C) : bbind (bret a) k = k a.
Proof. unfold bbind, bret. destruct (k a); reflexivity. Qed.

End BenchMonad.

Lemma deferred_fst {A} (calls : list BenchEvent) (rest : B A) :
  fst (deferred calls rest) = fst rest.
Proof. destruct rest as [[] t]; reflexivity. Qed.

Lemma deferred_snd {A} (calls : list BenchEvent) (rest : B A) :
  snd (deferred calls rest) =
  snd rest ++ match fst rest with Unfinished => [] | _ => calls end.
Proof. destruct rest as [[] t]; cbn; rewrite ?app_nil_r; reflexivity. Qed.

Lemma int32_small (n : Z) : 0 ≤ n < 2 ^ 31 → int32 n = n.
Proof.
  intros Hn. unfold int32.
  rewrite Z.mod_small; lia.
Qed.

Lemma skipFirst_spec (idx1 idx2 : Z) :
  0 ≤ idx2 < 2 ^ 31 - 1 →
  skipFirst idx1 idx2 = if idx1 <=? idx2 then idx2 + 1 else idx2.
Proof.
  intros H. unfold skipFirst.
  destruct (idx1 <=? idx2); [apply int32_small; lia | reflexivity].
Qed.

(** X9. Lines 125-129: the second position drawn skips the first one.  For a
    list of [len] topics, [2 <= len < 2^31], and a first position [idx1],
    each position [j] other than [idx1] is the outcome of exactly one draw
    [idx2] among the [len - 1] possible ones: the pairs of distinct
    positions are drawn one for one with the pairs of numbers drawn. *)
Theorem skipFirst_one_to_one (len idx1 j : Z) :
  2 ≤ len < 2 ^ 31 →
  0 ≤ idx1 < len →
  0 ≤ j < len →
  j ≠ idx1 →
  ∃ idx2, 0 ≤ idx2 < len - 1 ∧ skipFirst idx1 idx2 = j
          ∧ ∀ idx2', 0 ≤ idx2' < len - 1 → skipFirst idx1 idx2' = j →
                     idx2' = idx2.
Proof.
  intros Hlen H1 Hj Hne.
  exists (if idx1 <=? j then j - 1 else j).
  destruct (Z.leb_spec idx1 j) as [Hle | Hlt].
  - split; [lia|]. split.
    + rewrite skipFirst_spec by lia.
      destruct (Z.leb_spec idx1 (j - 1)); lia.
    + intros idx2' H2 Heq. rewrite skipFirst_spec in Heq by lia.
      destruct (Z.leb_spec idx1 idx2'); lia.
  - split; [lia|]. split.
    + rewrite skipFirst_spec by lia.
      destruct (Z.leb_spec idx1 j); lia.
    + intros idx2' H2 Heq. rewrite skipFirst_spec in Heq by lia.
      destruct (Z.leb_spec idx1 idx2'); lia.
Qed.

Lemma skipFirst_one_to_one_5_2_4 :
  ∃ idx2, 0 ≤ idx2 < 5 - 1 ∧ skipFirst 2 idx2 = 4
          ∧ ∀ idx2', 0 ≤ idx2' < 5 - 1 → skipFirst 2 idx2' = 4 →
                     idx2' = idx2.
Proof. apply (skipFirst_one_to_one 5 2 4); lia. Defined.

Section TwoTopics.

Variable RndState : Type.
Variable requestAndCompare : LogsRequest → option string.
Variable Int31n : RndState → Z → Z * RndState.

(** [Int31n] returns a number of [[0, n)] (package math/rand). *)
Hypothesis Int31n_range :
  ∀ rnd n, 0 < n → 0 ≤ fst (Int31n rnd n) < n.

Lemma topicAt_lookup (topics : list Hash) (idx : Z) :
  0 ≤ idx < Z.of_nat (length topics) →
  ∃ topic, topics !! Z.to_nat idx = Some topic ∧ topicAt topics idx = bret topic.
Proof.
  intros H. unfold topicAt.
  destruct (Z.ltb_spec idx 0); [lia|].
  destruct (lookup_lt_is_Some_2 topics (Z.to_nat idx)) as [topic Ht]; [lia|].
  exists topic. rewrite Ht. done.
Qed.

Lemma drawTwo_spec (rnd : RndState) (len : Z) :
  2 ≤ len < 2 ^ 31 →
  ∃ idx1 idx2 rnd',
    drawTwo Int31n rnd len = bret (idx1, idx2, rnd')
    ∧ 0 ≤ idx1 < len ∧ 0 ≤ idx2 < len ∧ idx1 ≠ idx2.
Proof.
  intros Hlen. unfold drawTwo, drawInt31n.
  rewrite !int32_small by lia.
  destruct (Z.leb_spec len 0); [lia|].
  pose proof (Int31n_range rnd len ltac:(lia)) as H1.
  destruct (Int31n rnd len) as [idx1 rnd1]. cbn [fst] in H1. cbn.
  destruct (Z.leb_spec (len - 1) 0); [lia|].
  pose proof (Int31n_range rnd1 (len - 1) ltac:(lia)) as H2.
  destruct (Int31n rnd1 (len - 1)) as [idx2 rnd2]. cbn [fst] in H2. cbn.
  exists idx1, (skipFirst idx1 idx2), rnd2. split; [reflexivity|].
  rewrite skipFirst_spec by lia.
  destruct (Z.leb_spec idx1 idx2); lia.
Qed.

Lemma compareTwoTopics_spec (prevBn bn : Z) (account : Address)
    (topics : list Hash) (rnd : RndState) :
  (2 ≤ length topics)%nat →
  Z.of_nat (length topics) < 2 ^ 31 →
  ∃ i1 i2 topic1 topic2,
    i1 ≠ i2
    ∧ topics !! i1 = Some topic1
    ∧ topics !! i2 = Some topic2
    ∧ snd (compareTwoTopics requestAndCompare Int31n prevBn bn account topics rnd)
      = [EvRequestAndCompare
           (getLogs2 prevBn ((bn + 100000) mod uint64_modulus) account
              topic1 topic2)]
    ∧ fst (compareTwoTopics requestAndCompare Int31n prevBn bn account topics rnd)
      ≠ Panic.
Proof.
  intros Hge Hlt. unfold compareTwoTopics.
  destruct (Nat.leb_spec 2 (length topics)); [|lia].
  destruct (drawTwo_spec rnd (Z.of_nat (length topics)) ltac:(lia))
    as (idx1 & idx2 & rnd' & -> & H1 & H2 & Hne).
  rewrite bbind_bret.
  destruct (topicAt_lookup topics idx1 H1) as (topic1 & Hl1 & ->).
  destruct (topicAt_lookup topics idx2 H2) as (topic2 & Hl2 & ->).
  rewrite !bbind_bret.
  exists (Z.to_nat idx1), (Z.to_nat idx2), topic1, topic2.
  split; [lia|]. split; [exact Hl1|]. split; [exact Hl2|].
  cbn. unfold compare. cbn.
  destruct (requestAndCompare _); cbn; split; done.
Qed.

End TwoTopics.

Section Traced.

Variable requestAndCompare : LogsRequest → option string.

Lemma traced_bret {A} (P : LogsRequest → Prop) (a : A) :
  traced requestAndCompare P (bret a).
Proof.
  exists []. split; [done|]. split; [constructor|]. split; [constructor|].
  split; [discriminate|]. intros r e Hin. inversion Hin.
Qed.

Lemma traced_Panic {A} (P : LogsRequest → Prop) :
  traced requestAndCompare P (@Panic A, []).
Proof.
  exists []. split; [done|]. split; [constructor|]. split; [constructor|].
  split; [discriminate|]. intros r e Hin. inversion Hin.
Qed.

Lemma traced_compare (P : LogsRequest → Prop) (request : LogsRequest) :
  P request → traced requestAndCompare P (compare requestAndCompare request).
Proof.
  intros HP. exists [request]. unfold compare. rewrite bbind_fst, bbind_snd.
  cbn. destruct (requestAndCompare request) eqn:Hr; cbn.
  - split; [done|]. split; [by constructor|]. split; [by intros [a Ha]|].
    split; [discriminate|].
    intros r e ->%list_elem_of_singleton He. split; congruence.
  - split; [done|]. split; [by constructor|]. split; [by constructor|].
    split; [discriminate|].
    intros r e ->%list_elem_of_singleton He. congruence.
Qed.

Lemma traced_bbind {A C} (P : LogsRequest → Prop) (m : B A) (k : A → B C) :
  traced requestAndCompare P m →
  (∀ a, fst m = Next a → traced requestAndCompare P (k a)) →
  traced requestAndCompare P (bbind m k).
Proof.
  intros (rs & Hs & HP & Hok & Hfin & Hfail) Hk.
  unfold traced. rewrite bbind_fst, bbind_snd.
  destruct (fst m) as [a| | |] eqn:Hm.
  - destruct (Hk a eq_refl) as (rs' & Hs' & HP' & Hok' & Hfin' & Hfail').
    exists (rs ++ rs'). rewrite fmap_app, Hs, Hs'.
    split; [done|]. split; [by apply Forall_app|]. split.
    { intros Hn. apply Forall_app. split; [apply Hok; eauto | by apply Hok']. }
    split; [done|].
    intros r e [Hin | Hin]%elem_of_app He.
    + assert (requestAndCompare r = None) as Hnone; [|congruence].
      apply (proj1 (Forall_forall _ _) (Hok (ex_intro _ a eq_refl)) r Hin).
    + destruct (Hfail' r e Hin He) as [Hret Hlast]. split; [done|].
      by rewrite last_app, Hlast.
  - exists rs. rewrite app_nil_r.
    split; [done|]. split; [done|]. split; [by intros [a Ha]|].
    split; [done|]. intros r e Hin He.
    destruct (Hfail r e Hin He) as [[= ->] Hlast]. done.
  - exists rs. rewrite app_nil_r.
    split; [done|]. split; [done|]. split; [by intros [a Ha]|].
    split; [done|]. intros r e Hin He.
    by destruct (Hfail r e Hin He) as [[=] _].
  - done.
Qed.

Lemma traced_weaken {A} (P Q : LogsRequest → Prop) (m : B A) :
  (∀ request, P request → Q request) →
  traced requestAndCompare P m → traced requestAndCompare Q m.
Proof.
  intros HPQ (rs & Hs & HP & Hok & Hfin & Hfail). exists rs.
  split; [done|]. split; [by eapply Forall_impl|]. done.
Qed.

End Traced.

Lemma comparedRequests_fmap (requests : list LogsRequest) :
  comparedRequests (EvRequestAndCompare <$> requests) = requests.
Proof.
  unfold comparedRequests. induction requests as [|r rs IH]; [done|].
  cbn. by rewrite IH.
Qed.

Lemma modifiedAccountsCalls_fmap (requests : list LogsRequest) :
  modifiedAccountsCalls (EvRequestAndCompare <$> requests) = [].
Proof. unfold modifiedAccountsCalls. by induction requests. Qed.

Lemma comparedRequests_app (t t' : list BenchEvent) :
  comparedRequests (t ++ t') = comparedRequests t ++ comparedRequests t'.
Proof. apply omap_app. Qed.

Lemma modifiedAccountsCalls_app (t t' : list BenchEvent) :
  modifiedAccountsCalls (t ++ t') =
  modifiedAccountsCalls t ++ modifiedAccountsCalls t'.
Proof. apply omap_app. Qed.

Section BenchProps.

Variables RndState Value : Type.
Variable os_Create : string → option string.
Variable ErigonBlockNumber : Reply.
Variable ErigonModifiedAccounts : Z → Z → ModifiedAccounts Value.
Variable rangeAccounts : ModifiedAccounts Value → list Address.
Variable getTopics : Value → list Hash.
Variable requestAndCompare : LogsRequest → option string.
Variable Int31n : RndState → Z → Z * RndState.
Variable rnd42 : RndState.

Lemma topicAt_Next (topics : list Hash) (idx : Z) (topic : Hash) :
  fst (topicAt topics idx) = Next topic → topic ∈ topics.
Proof.
  unfold topicAt. destruct (idx <? 0); [done|].
  destruct (topics !! Z.to_nat idx) as [t|] eqn:Ht; [|done].
  cbn. intros [= <-]. by eapply list_elem_of_lookup_2.
Qed.

Lemma topicAt_snd (topics : list Hash) (idx : Z) : snd (topicAt topics idx) = [].
Proof.
  unfold topicAt. destruct (idx <? 0); [done|].
  by destruct (topics !! Z.to_nat idx).
Qed.

Lemma topicAt_traced P (topics : list Hash) (idx : Z) :
  traced requestAndCompare P (topicAt topics idx).
Proof.
  unfold topicAt. destruct (idx <? 0); [apply traced_Panic|].
  destruct (topics !! Z.to_nat idx); [apply traced_bret | apply traced_Panic].
Qed.

Lemma drawInt31n_traced P (rnd : RndState) (n : Z) :
  traced requestAndCompare P (drawInt31n Int31n rnd n).
Proof.
  unfold drawInt31n. destruct (n <=? 0); [apply traced_Panic | apply traced_bret].
Qed.

Lemma drawTwo_traced P (rnd : RndState) (len : Z) :
  traced requestAndCompare P (drawTwo Int31n rnd len).
Proof.
  unfold drawTwo. apply traced_bbind; [apply drawInt31n_traced|].
  intros [idx1 rnd1] _. apply traced_bbind; [apply drawInt31n_traced|].
  intros [idx2 rnd2] _. apply traced_bret.
Qed.

Lemma compareTopics_traced (prevBn bn : Z) (account : Address)
    (topics all : list Hash) :
  topics ⊆ all →
  traced requestAndCompare (windowRequest prevBn bn all account)
    (compareTopics requestAndCompare prevBn bn account topics).
Proof.
  induction topics as [|topic rest IH]; intros Hsub; cbn [compareTopics].
  - apply traced_bret.
  - apply traced_bbind.
    + apply traced_compare. right; left. exists topic.
      split; [apply Hsub; left | reflexivity].
    + intros _ _. apply IH. intros x Hx. apply Hsub. by right.
Qed.

Lemma compareTwoTopics_traced (prevBn bn : Z) (account : Address)
    (topics : list Hash) (rnd : RndState) :
  traced requestAndCompare (windowRequest prevBn bn topics account)
    (compareTwoTopics requestAndCompare Int31n prevBn bn account topics rnd).
Proof.
  unfold compareTwoTopics. destruct (2 <=? length topics)%nat; [|apply traced_bret].
  apply traced_bbind; [apply drawTwo_traced|].
  intros [[idx1 idx2] rnd'] _.
  apply traced_bbind; [apply topicAt_traced|]. intros topic1 H1.
  apply traced_bbind; [apply topicAt_traced|]. intros topic2 H2.
  apply traced_bbind; [|intros; apply traced_bret].
  apply traced_compare. right; right. exists topic1, topic2.
  split; [by eapply topicAt_Next|]. split; [by eapply topicAt_Next | reflexivity].
Qed.

Lemma compareAccount_traced (prevBn bn : Z) (mag : ModifiedAccounts Value)
    (account : Address) (rnd : RndState) :
  traced requestAndCompare
    (windowRequest prevBn bn (getTopics (res_Result mag)) account)
    (compareAccount getTopics requestAndCompare Int31n prevBn bn mag account rnd).
Proof.
  unfold compareAccount. apply traced_bbind.
  - apply traced_compare. by left.
  - intros _ _. apply traced_bbind; [by apply compareTopics_traced|].
    intros _ _. apply compareTwoTopics_traced.
Qed.

Lemma compareAccounts_traced (prevBn bn : Z) (mag : ModifiedAccounts Value)
    (accounts all : list Address) (rnd : RndState) :
  accounts ⊆ all →
  traced requestAndCompare
    (fun request => ∃ account, account ∈ all
       ∧ windowRequest prevBn bn (getTopics (res_Result mag)) account request)
    (compareAccounts getTopics requestAndCompare Int31n prevBn bn mag accounts rnd).
Proof.
  revert rnd. induction accounts as [|account rest IH]; intros rnd Hsub;
    cbn [compareAccounts].
  - apply traced_bret.
  - apply traced_bbind.
    + eapply traced_weaken; [|apply compareAccount_traced].
      intros request Hr. exists account. split; [apply Hsub; left | exact Hr].
    + intros rnd' _. apply IH. intros x Hx. apply Hsub. by right.
Qed.

(** What a part that goes on has asked. *)
Lemma compare_asked (request : LogsRequest) :
  EvRequestAndCompare request ∈ snd (compare requestAndCompare request).
Proof. unfold compare. rewrite bbind_snd. cbn. left. Qed.

Lemma compareTopics_complete (prevBn bn : Z) (account : Address)
    (topics : list Hash) (topic : Hash) :
  (∃ a, fst (compareTopics requestAndCompare prevBn bn account topics) = Next a) →
  topic ∈ topics →
  EvRequestAndCompare
    (plain (getLogs1 prevBn ((bn + 10000) mod uint64_modulus) account topic))
  ∈ snd (compareTopics requestAndCompare prevBn bn account topics).
Proof.
  induction topics as [|t rest IH]; intros Hn Hin; [by inversion Hin|].
  cbn [compareTopics] in *. rewrite bbind_snd. rewrite bbind_fst in Hn.
  apply elem_of_app. inversion Hin as [|? ? ? Hin']; subst.
  - left. apply compare_asked.
  - right. destruct (fst (compare _ _)) as [[]| | |]; try (by destruct Hn).
    by apply IH.
Qed.

Lemma compareAccount_complete (prevBn bn : Z) (mag : ModifiedAccounts Value)
    (account : Address) (rnd : RndState) :
  (∃ a, fst (compareAccount getTopics requestAndCompare Int31n prevBn bn mag
               account rnd) = Next a) →
  EvRequestAndCompare (plain (getLogs prevBn bn account))
  ∈ snd (compareAccount getTopics requestAndCompare Int31n prevBn bn mag account rnd)
  ∧ ∀ topic, topic ∈ getTopics (res_Result mag) →
      EvRequestAndCompare
        (plain (getLogs1 prevBn ((bn + 10000) mod uint64_modulus) account topic))
      ∈ snd (compareAccount getTopics requestAndCompare Int31n prevBn bn mag
               account rnd).
Proof.
  unfold compareAccount. intros Hn. rewrite bbind_fst in Hn. rewrite !bbind_snd.
  split; [apply elem_of_app; left; apply compare_asked|].
  intros topic Hin. apply elem_of_app. right.
  destruct (fst (compare _ _)) as [[]| | |]; try (by destruct Hn).
  cbn beta in *. rewrite bbind_fst in Hn. rewrite ?bbind_snd. apply elem_of_app. left.
  apply compareTopics_complete; [|done].
  destruct (fst (compareTopics _ _ _ _ _)) as [[]| | |]; try (by destruct Hn).
  by eexists.
Qed.

Lemma compareAccounts_complete (prevBn bn : Z) (mag : ModifiedAccounts Value)
    (accounts : list Address) (rnd : RndState) (account : Address) :
  (∃ a, fst (compareAccounts getTopics requestAndCompare Int31n prevBn bn mag
               accounts rnd) = Next a) →
  account ∈ accounts →
  EvRequestAndCompare (plain (getLogs prevBn bn account))
  ∈ snd (compareAccounts getTopics requestAndCompare Int31n prevBn bn mag accounts rnd)
  ∧ ∀ topic, topic ∈ getTopics (res_Result mag) →
      EvRequestAndCompare
        (plain (getLogs1 prevBn ((bn + 10000) mod uint64_modulus) account topic))
      ∈ snd (compareAccounts getTopics requestAndCompare Int31n prevBn bn mag
               accounts rnd).
Proof.
  revert rnd. induction accounts as [|a rest IH]; intros rnd Hn Hin;
    [by inversion Hin|].
  cbn [compareAccounts] in *. rewrite bbind_fst in Hn. rewrite !bbind_snd.
  destruct (fst (compareAccount _ _ _ _ _ _ _ _)) as [rnd'| | |] eqn:Ha;
    try (by destruct Hn).
  apply elem_of_cons in Hin as [-> | Hin'].
  - destruct (compareAccount_complete prevBn bn mag a rnd) as [H0 H1];
      [by eexists|].
    split; [apply elem_of_app; by left|].
    intros topic Ht. apply elem_of_app; left; by apply H1.
  - destruct (IH rnd' Hn Hin') as [H0 H1].
    split; [apply elem_of_app; by right|].
    intros topic Ht. apply elem_of_app; right; by apply H1.
Qed.

End BenchProps.

Lemma fmap_seqZ_succ {T} (f : Z → T) (m : Z) :
  0 ≤ m →
  f <$> seqZ 0 (m + 1) = f 0 :: ((fun i => f (1 + i)) <$> seqZ 0 m).
Proof.
  intros Hm. rewrite (seqZ_cons 0) by lia. cbn [fmap list_fmap]. f_equal.
  replace (Z.pred (m + 1)) with m by lia.
  change (Z.succ 0) with (1 + 0). rewrite <- (fmap_add_seqZ 1 0 m).
  rewrite <- list_fmap_compose. reflexivity.
Qed.

Lemma windowCount_step (bn blockTo : Z) :
  bn < blockTo → windowCount (bn + 100) blockTo = windowCount bn blockTo - 1
                 ∧ 1 ≤ windowCount bn blockTo.
Proof. unfold windowCount. intros H. Z.div_mod_to_equations. lia. Qed.

Lemma windowCount_done (bn blockTo : Z) :
  blockTo ≤ bn → windowCount bn blockTo ≤ 0.
Proof. unfold windowCount. intros H. Z.div_mod_to_equations. lia. Qed.

Section Windows.

Variables RndState Value : Type.
Variable ErigonModifiedAccounts : Z → Z → ModifiedAccounts Value.
Variable rangeAccounts : ModifiedAccounts Value → list Address.
Variable getTopics : Value → list Hash.
Variable requestAndCompare : LogsRequest → option string.
Variable Int31n : RndState → Z → Z * RndState.

Local Abbreviation accountsOf prevBn bn rnd :=
  (compareAccounts getTopics requestAndCompare Int31n prevBn bn
     (ErigonModifiedAccounts prevBn bn)
     (rangeAccounts (ErigonModifiedAccounts prevBn bn)) rnd).
Local Abbreviation windowOf :=
  (window ErigonModifiedAccounts rangeAccounts getTopics requestAndCompare Int31n).
Local Abbreviation windowsOf :=
  (windows ErigonModifiedAccounts rangeAccounts getTopics requestAndCompare Int31n).

Local Abbreviation fetched := (fetched ErigonModifiedAccounts).

Lemma accounts_traced (prevBn bn : Z) (rnd : RndState) :
  traced requestAndCompare
    (fun request => ∃ account,
       account ∈ rangeAccounts (ErigonModifiedAccounts prevBn bn)
       ∧ windowRequest prevBn bn
           (getTopics (res_Result (ErigonModifiedAccounts prevBn bn)))
           account request)
    (accountsOf prevBn bn rnd).
Proof. by apply compareAccounts_traced. Qed.

Lemma window_cases (prevBn bn : Z) (rnd : RndState) :
  (fetched prevBn bn
   ∧ fst (windowOf prevBn bn rnd) = fst (accountsOf prevBn bn rnd)
   ∧ snd (windowOf prevBn bn rnd)
     = EvErigonModifiedAccounts prevBn bn :: snd (accountsOf prevBn bn rnd))
  ∨ ((∃ e, fst (windowOf prevBn bn rnd) = Return e)
     ∧ snd (windowOf prevBn bn rnd) = [EvErigonModifiedAccounts prevBn bn]).
Proof.
  unfold window, fetched. rewrite bbind_fst, bbind_snd. cbn.
  destruct (res_Err _) as [e|] eqn:He; [right; eauto|].
  destruct (mag_Error _) as [e|] eqn:He'; [right; eauto|].
  left. rewrite !bool_decide_eq_true_2 by done. cbn. done.
Qed.

Lemma window_calls (prevBn bn : Z) (rnd : RndState) :
  modifiedAccountsCalls (snd (windowOf prevBn bn rnd)) = [(prevBn, bn)].
Proof.
  destruct (window_cases prevBn bn rnd) as [(_ & _ & ->) | (_ & ->)]; [|done].
  destruct (accounts_traced prevBn bn rnd) as (rs & -> & _).
  change (modifiedAccountsCalls (?e :: ?t)) with ((prevBn, bn) :: modifiedAccountsCalls t).
  by rewrite modifiedAccountsCalls_fmap.
Qed.

Lemma window_finished (prevBn bn : Z) (rnd : RndState) :
  fst (windowOf prevBn bn rnd) ≠ Unfinished.
Proof.
  destruct (window_cases prevBn bn rnd) as [(_ & -> & _) | ([e ->] & _)]; [|done].
  destruct (accounts_traced prevBn bn rnd) as (rs & _ & _ & _ & H & _).
  exact H.
Qed.

(** Every request of a window is one of its requests for an account that
    was modified in it; when the window goes on, each has returned [nil]. *)
Lemma window_requests (prevBn bn : Z) (rnd : RndState) (request : LogsRequest) :
  request ∈ comparedRequests (snd (windowOf prevBn bn rnd)) →
  fetched prevBn bn
  ∧ (∃ account,
       account ∈ rangeAccounts (ErigonModifiedAccounts prevBn bn)
       ∧ windowRequest prevBn bn
           (getTopics (res_Result (ErigonModifiedAccounts prevBn bn)))
           account request)
  ∧ ((∃ a, fst (windowOf prevBn bn rnd) = Next a) →
     requestAndCompare request = None).
Proof.
  destruct (window_cases prevBn bn rnd) as [(Hf & -> & ->) | (_ & ->)];
    [|by intros Hin; inversion Hin].
  destruct (accounts_traced prevBn bn rnd) as (rs & -> & HP & Hok & _).
  change (comparedRequests (?e :: ?t)) with (comparedRequests t).
  rewrite comparedRequests_fmap. intros Hin.
  split; [done|]. split.
  - by apply (proj1 (Forall_forall _ _) HP).
  - intros Hn. by apply (proj1 (Forall_forall _ _) (Hok Hn)).
Qed.

Lemma window_first_error (prevBn bn : Z) (rnd : RndState)
    (request : LogsRequest) (err : string) :
  request ∈ comparedRequests (snd (windowOf prevBn bn rnd)) →
  requestAndCompare request = Some err →
  fst (windowOf prevBn bn rnd) = Return (CompareErr err)
  ∧ last (comparedRequests (snd (windowOf prevBn bn rnd))) = Some request.
Proof.
  destruct (window_cases prevBn bn rnd) as [(Hf & -> & ->) | (_ & ->)];
    [|by intros Hin; inversion Hin].
  destruct (accounts_traced prevBn bn rnd) as (rs & -> & _ & _ & _ & Hfail).
  change (comparedRequests (?e :: ?t)) with (comparedRequests t).
  rewrite comparedRequests_fmap. apply Hfail.
Qed.

(** A window that goes on has fetched the modified accounts and has asked,
    for each of them, the request with no topic and the ones with one
    topic. *)
Lemma window_complete (prevBn bn : Z) (rnd : RndState) :
  (∃ a, fst (windowOf prevBn bn rnd) = Next a) →
  fetched prevBn bn
  ∧ ∀ account, account ∈ rangeAccounts (ErigonModifiedAccounts prevBn bn) →
      plain (getLogs prevBn bn account)
      ∈ comparedRequests (snd (windowOf prevBn bn rnd))
      ∧ ∀ topic,
          topic ∈ getTopics (res_Result (ErigonModifiedAccounts prevBn bn)) →
          plain (getLogs1 prevBn ((bn + 10000) mod uint64_modulus) account topic)
          ∈ comparedRequests (snd (windowOf prevBn bn rnd)).
Proof.
  destruct (window_cases prevBn bn rnd) as [(Hf & -> & ->) | ([e ->] & _)];
    [|by intros [a Ha]].
  intros Hn. split; [done|]. intros account Hin.
  destruct (compareAccounts_complete _ _ getTopics requestAndCompare Int31n
              prevBn bn _ _ rnd account Hn Hin) as [H0 H1].
  change (comparedRequests (?e :: ?t)) with (comparedRequests t).
  unfold comparedRequests. split.
  - apply list_elem_of_omap. eexists. split; [exact H0 | reflexivity].
  - intros topic Ht. apply list_elem_of_omap. eexists.
    split; [exact (H1 topic Ht) | reflexivity].
Qed.

Variable blockTo : Z.

Lemma windows_unfold (fuel : nat) (prevBn bn : Z) (rnd : RndState) :
  bn < blockTo →
  fst (windowsOf (S fuel) prevBn bn blockTo rnd)
  = match fst (windowOf prevBn bn rnd) with
    | Next rnd' =>
        fst (windowsOf fuel bn ((bn + 100) mod uint64_modulus) blockTo rnd')
    | Return e => Return e
    | Panic => Panic
    | Unfinished => Unfinished
    end
  ∧ snd (windowsOf (S fuel) prevBn bn blockTo rnd)
    = snd (windowOf prevBn bn rnd)
      ++ match fst (windowOf prevBn bn rnd) with
         | Next rnd' =>
             snd (windowsOf fuel bn ((bn + 100) mod uint64_modulus) blockTo rnd')
         | _ => []
         end.
Proof.
  intros Hbn. cbn [windows].
  destruct (Z.ltb_spec bn blockTo); [|lia].
  rewrite bbind_fst, bbind_snd. done.
Qed.

Lemma windows_stop (fuel : nat) (prevBn bn : Z) (rnd : RndState) :
  blockTo ≤ bn →
  windowsOf (S fuel) prevBn bn blockTo rnd = bret tt.
Proof. intros Hbn. cbn [windows]. destruct (Z.ltb_spec bn blockTo); [lia | done]. Qed.

(** Every request is a request of a window that has been fetched. *)
Lemma windows_requests (fuel : nat) (prevBn bn : Z) (rnd : RndState)
    (request : LogsRequest) :
  request ∈ comparedRequests (snd (windowsOf fuel prevBn bn blockTo rnd)) →
  (∃ prevBn' bn',
     (prevBn', bn')
     ∈ modifiedAccountsCalls (snd (windowsOf fuel prevBn bn blockTo rnd))
     ∧ fetched prevBn' bn'
     ∧ ∃ account,
         account ∈ rangeAccounts (ErigonModifiedAccounts prevBn' bn')
         ∧ windowRequest prevBn' bn'
             (getTopics (res_Result (ErigonModifiedAccounts prevBn' bn')))
             account request)
  ∧ ((∃ a, fst (windowsOf fuel prevBn bn blockTo rnd) = Next a) →
     requestAndCompare request = None).
Proof.
  revert prevBn bn rnd. induction fuel as [|fuel IH]; intros prevBn bn rnd.
  - cbn. intros Hin. inversion Hin.
  - destruct (Z.lt_ge_cases bn blockTo) as [Hlt | Hge].
    + destruct (windows_unfold fuel prevBn bn rnd Hlt) as [-> ->].
      rewrite comparedRequests_app, modifiedAccountsCalls_app.
      intros [Hin | Hin]%elem_of_app.
      * destruct (window_requests prevBn bn rnd request Hin) as (Hf & Ha & Hok).
        split.
        { exists prevBn, bn. split; [|done].
          apply elem_of_app. left. rewrite window_calls. left. }
        intros Hn. apply Hok.
        destruct (fst (windowOf prevBn bn rnd)); [by eexists | | |];
          by destruct Hn.
      * destruct (fst (windowOf prevBn bn rnd)) as [rnd'| | |];
          try (by inversion Hin).
        destruct (IH bn _ rnd' Hin)
          as ((p & b & Hc & Hrest) & Hok).
        split; [|done]. exists p, b. split; [|done].
        apply elem_of_app. by right.
    + rewrite windows_stop by lia. cbn. intros Hin. inversion Hin.
Qed.

(** A comparison that fails is the last one, and its error is returned. *)
Lemma windows_first_error (fuel : nat) (prevBn bn : Z) (rnd : RndState)
    (request : LogsRequest) (err : string) :
  request ∈ comparedRequests (snd (windowsOf fuel prevBn bn blockTo rnd)) →
  requestAndCompare request = Some err →
  fst (windowsOf fuel prevBn bn blockTo rnd) = Return (CompareErr err)
  ∧ last (comparedRequests (snd (windowsOf fuel prevBn bn blockTo rnd)))
    = Some request.
Proof.
  revert prevBn bn rnd. induction fuel as [|fuel IH]; intros prevBn bn rnd.
  - cbn. intros Hin. inversion Hin.
  - destruct (Z.lt_ge_cases bn blockTo) as [Hlt | Hge].
    + destruct (windows_unfold fuel prevBn bn rnd Hlt) as [-> ->].
      rewrite comparedRequests_app.
      intros [Hin | Hin]%elem_of_app He.
      * destruct (window_first_error prevBn bn rnd request err Hin He)
          as [-> Hlast].
        cbn [comparedRequests omap list_omap]. by rewrite app_nil_r.
      * destruct (fst (windowOf prevBn bn rnd)) as [rnd'| | |];
          try (by inversion Hin).
        destruct (IH bn _ rnd' Hin He) as [Hret Hlast].
        split; [done|]. by rewrite last_app, Hlast.
    + rewrite windows_stop by lia. cbn. intros Hin. inversion Hin.
Qed.

Lemma windows_rpc (fuel : nat) (prevBn bn : Z) (rnd : RndState) :
  Forall isRpc (snd (windowsOf fuel prevBn bn blockTo rnd)).
Proof.
  revert prevBn bn rnd. induction fuel as [|fuel IH]; intros prevBn bn rnd;
    [constructor|].
  cbn [windows]. destruct (bn <? blockTo); [|constructor].
  rewrite bbind_snd. apply Forall_app. split.
  - destruct (window_cases prevBn bn rnd) as [(_ & _ & ->) | (_ & ->)].
    + constructor; [exact I|].
      destruct (accounts_traced prevBn bn rnd) as (rs & -> & _).
      apply Forall_fmap, Forall_true. intros r. exact I.
    + repeat constructor.
  - destruct (fst (windowOf prevBn bn rnd)); [apply IH | | |]; constructor.
Qed.

Hypothesis blockTo_no_wrap : blockTo ≤ uint64_modulus - 100.

Lemma windows_step (fuel : nat) (prevBn bn : Z) (rnd : RndState) :
  0 ≤ bn < blockTo →
  fst (windowsOf (S fuel) prevBn bn blockTo rnd)
  = match fst (windowOf prevBn bn rnd) with
    | Next rnd' => fst (windowsOf fuel bn (bn + 100) blockTo rnd')
    | Return e => Return e
    | Panic => Panic
    | Unfinished => Unfinished
    end
  ∧ snd (windowsOf (S fuel) prevBn bn blockTo rnd)
    = snd (windowOf prevBn bn rnd)
      ++ match fst (windowOf prevBn bn rnd) with
         | Next rnd' => snd (windowsOf fuel bn (bn + 100) blockTo rnd')
         | _ => []
         end.
Proof.
  intros Hbn. cbn [windows].
  destruct (Z.ltb_spec bn blockTo); [|lia].
  rewrite bbind_fst, bbind_snd.
  rewrite (Z.mod_small (bn + 100)) by (unfold uint64_modulus in *; lia).
  done.
Qed.

(** The windows fetched are consecutive windows of 100 blocks. *)
Lemma windows_calls (fuel : nat) (bn : Z) (rnd : RndState) :
  0 ≤ bn →
  ∃ m, 0 ≤ m ≤ Z.max 0 (windowCount bn blockTo)
       ∧ modifiedAccountsCalls (snd (windowsOf fuel (bn - 100) bn blockTo rnd))
         = (fun i => (bn - 100 + 100 * i, bn + 100 * i)) <$> seqZ 0 m
       ∧ ((∃ a, fst (windowsOf fuel (bn - 100) bn blockTo rnd) = Next a) →
          m = Z.max 0 (windowCount bn blockTo))
       ∧ (Z.max 0 (windowCount bn blockTo) < Z.of_nat fuel →
          fst (windowsOf fuel (bn - 100) bn blockTo rnd) ≠ Unfinished).
Proof.
  revert bn rnd. induction fuel as [|fuel IH]; intros bn rnd Hbn.
  - exists 0. cbn [windows fst snd]. split; [lia|]. split; [done|].
    split; [by intros [a Ha]|]. lia.
  - destruct (Z.lt_ge_cases bn blockTo) as [Hlt | Hge].
    + destruct (windows_step fuel (bn - 100) bn rnd ltac:(lia)) as [-> ->].
      rewrite modifiedAccountsCalls_app, window_calls.
      destruct (windowCount_step bn blockTo Hlt) as [Hc Hc1].
      pose proof (window_finished (bn - 100) bn rnd) as Hfin.
      destruct (fst (windowOf (bn - 100) bn rnd)) as [rnd'| | |].
      * destruct (IH (bn + 100) rnd' ltac:(lia)) as (m & Hm & Hcalls & Hn & Hf).
        replace (bn + 100 - 100) with bn in * by lia.
        exists (m + 1). split; [lia|]. split.
        { rewrite Hcalls, fmap_seqZ_succ by lia. cbn [app]. f_equal.
          - f_equal; lia.
          - apply list_fmap_ext. intros _ i _. f_equal; lia. }
        split; [intros Ha; specialize (Hn Ha); lia|].
        intros Hfuel. apply Hf. lia.
      * exists 1. split; [lia|]. split; [change (seqZ 0 1) with [0]; cbn [fmap list_fmap app]; do 2 f_equal; lia|].
        split; [by intros [a Ha] | done].
      * exists 1. split; [lia|]. split; [change (seqZ 0 1) with [0]; cbn [fmap list_fmap app]; do 2 f_equal; lia|].
        split; [by intros [a Ha] | done].
      * done.
    + rewrite windows_stop by lia. pose proof (windowCount_done bn blockTo Hge).
      exists 0. cbn. split; [lia|]. split; [done|]. split; [lia | done].
Qed.

(** A run of the windows that goes on to the end has gone through each of
    them. *)
Lemma windows_complete (fuel : nat) (bn : Z) (rnd : RndState) (i : Z) :
  0 ≤ bn →
  (∃ a, fst (windowsOf fuel (bn - 100) bn blockTo rnd) = Next a) →
  0 ≤ i < windowCount bn blockTo →
  fetched (bn - 100 + 100 * i) (bn + 100 * i)
  ∧ ∀ account,
      account ∈ rangeAccounts
                  (ErigonModifiedAccounts (bn - 100 + 100 * i) (bn + 100 * i)) →
      plain (getLogs (bn - 100 + 100 * i) (bn + 100 * i) account)
      ∈ comparedRequests (snd (windowsOf fuel (bn - 100) bn blockTo rnd))
      ∧ ∀ topic,
          topic ∈ getTopics
                    (res_Result (ErigonModifiedAccounts (bn - 100 + 100 * i)
                                   (bn + 100 * i))) →
          plain (getLogs1 (bn - 100 + 100 * i)
                   ((bn + 100 * i + 10000) mod uint64_modulus) account topic)
          ∈ comparedRequests (snd (windowsOf fuel (bn - 100) bn blockTo rnd)).
Proof.
  revert bn rnd i. induction fuel as [|fuel IH]; intros bn rnd i Hbn Hn Hi.
  - cbn in Hn. by destruct Hn.
  - destruct (Z.lt_ge_cases bn blockTo) as [Hlt | Hge].
    2:{ pose proof (windowCount_done bn blockTo Hge). lia. }
    destruct (windows_step fuel (bn - 100) bn rnd ltac:(lia)) as [Hfst Hsnd].
    rewrite Hfst in Hn. rewrite Hsnd, comparedRequests_app. clear Hfst Hsnd.
    destruct (fst (windowOf (bn - 100) bn rnd)) as [rnd'| | |] eqn:Hw;
      try (by destruct Hn).
    destruct (decide (i = 0)) as [-> | Hne].
    + replace (bn - 100 + 100 * 0) with (bn - 100) by lia.
      replace (bn + 100 * 0) with bn by lia.
      destruct (window_complete (bn - 100) bn rnd) as [Hf Hall]; [by eexists|].
      split; [done|]. intros account Hin. destruct (Hall account Hin) as [H0 H1].
      split; [apply elem_of_app; by left|].
      intros topic Ht. apply elem_of_app. left. by apply H1.
    + destruct (windowCount_step bn blockTo Hlt) as [Hc _].
      specialize (IH (bn + 100) rnd' (i - 1) ltac:(lia)).
      replace (bn + 100 - 100) with bn in IH by lia.
      replace (bn + 100 - 100 + 100 * (i - 1)) with (bn - 100 + 100 * i) in IH
        by lia.
      replace (bn + 100 + 100 * (i - 1)) with (bn + 100 * i) in IH by lia.
      replace (bn + 100 * (i - 1)) with (bn - 100 + 100 * i) in IH by lia.
      destruct (IH Hn ltac:(lia)) as [Hf Hall].
      split; [done|]. intros account Hin. destruct (Hall account Hin) as [H0 H1].
      split; [apply elem_of_app; by right|].
      intros topic Ht. apply elem_of_app. right. by apply H1.
Qed.

End Windows.

Lemma covers_refl (m : B unit) : covers m m.
Proof. by left. Qed.

Lemma covers_trans (a b c : B unit) : covers a b → covers b c → covers a c.
Proof.
  intros [(Hf & Hr & Hm) | (He & Hr & Hm)] Hbc; [|by right].
  destruct Hbc as [(Hf' & Hr' & Hm') | ([e He] & Hr' & Hm')].
  - left. repeat split; congruence.
  - right. split; [exists e; congruence|]. split; congruence.
Qed.

Lemma covers_deferred (calls : list BenchEvent) (rest : B unit) :
  comparedRequests calls = [] → modifiedAccountsCalls calls = [] →
  covers (deferred calls rest) rest.
Proof.
  intros Hr Hm. left. rewrite deferred_fst, deferred_snd.
  rewrite comparedRequests_app, modifiedAccountsCalls_app.
  split; [done|].
  destruct (fst rest); cbn [comparedRequests modifiedAccountsCalls omap list_omap];
    rewrite ?Hr, ?Hm, ?app_nil_r; done.
Qed.

Lemma covers_emit (ev : BenchEvent) (rest : B unit) :
  comparedRequests [ev] = [] → modifiedAccountsCalls [ev] = [] →
  covers (bbind (emit ev) (fun _ => rest)) rest.
Proof.
  intros Hr Hm. left. rewrite bbind_fst, bbind_snd.
  cbn [emit fst snd]. rewrite comparedRequests_app, modifiedAccountsCalls_app, Hr, Hm.
  split; [by destruct (fst rest)|]. done.
Qed.

Lemma covers_withResultsCh (needCompare : bool) (rest : B unit) :
  covers (withResultsCh needCompare rest) rest.
Proof.
  unfold withResultsCh. destruct needCompare; cbn [negb]; [apply covers_refl|].
  eapply covers_trans; [by apply covers_deferred | by apply covers_emit].
Qed.

Lemma owed_app (os_Create : string → option string) (t t' : list BenchEvent) :
  owed os_Create (t ++ t') = owed os_Create t' ++ owed os_Create t.
Proof.
  induction t as [|ev t IH]; cbn [app owed]; [by rewrite app_nil_r|].
  by rewrite IH, app_assoc.
Qed.

Lemma owed_rpc (os_Create : string → option string) (t : list BenchEvent) :
  Forall isRpc t → owed os_Create t = [].
Proof.
  induction 1 as [|ev t Hev _ IH]; [done|].
  cbn [owed]. rewrite IH. by destruct ev.
Qed.

Lemma rpc_not_cleanup (t : list BenchEvent) :
  Forall isRpc t → Forall (fun ev => ¬ isCleanup ev) t.
Proof. intros H. eapply Forall_impl; [exact H|]. intros ev Hev. destruct ev; cbn in *; tauto. Qed.

Lemma cleansUp_rpc (os_Create : string → option string) (m : B unit) :
  Forall isRpc (snd m) → cleansUp os_Create m.
Proof.
  intros Hrpc _. exists (snd m). rewrite owed_rpc, app_nil_r by done.
  split; [done | by apply rpc_not_cleanup].
Qed.

Lemma cleansUp_withResultsCh (os_Create : string → option string)
    (needCompare : bool) (rest : B unit) :
  cleansUp os_Create rest → cleansUp os_Create (withResultsCh needCompare rest).
Proof.
  unfold withResultsCh. destruct needCompare; cbn [negb]; [done|].
  intros Hrest Hfin. rewrite deferred_fst, bbind_fst in Hfin.
  rewrite deferred_snd, bbind_fst, bbind_snd. cbn [emit fst snd] in *.
  destruct Hrest as (body & -> & Hbody); [done|].
  exists (EvGoVegetaWrite :: body). cbn [owed]. split.
  - destruct (fst rest); [| | |done]; by rewrite <- !app_assoc.
  - constructor; [by intros []|done].
Qed.

Section Wrappers.

Variable os_Create : string → option string.

Lemma withFile_cases (role : FileRole) (name : string)
    (cannotCreate : string → string → bench_error) (rest : B unit) :
  withFile os_Create role name cannotCreate rest = rest
  ∨ (∃ err, os_Create name = Some err
            ∧ withFile os_Create role name cannotCreate rest
              = (Return (cannotCreate name err), [EvCreate role name]))
  ∨ (os_Create name = None
     ∧ fst (withFile os_Create role name cannotCreate rest) = fst rest
     ∧ snd (withFile os_Create role name cannotCreate rest)
       = EvCreate role name
         :: snd rest ++ match fst rest with
                        | Unfinished => []
                        | _ => [EvFlush role; EvClose role]
                        end).
Proof.
  unfold withFile. destruct (bool_decide _); [|by left]. right.
  destruct (os_Create name) as [err|] eqn:Hc.
  - left. exists err. done.
  - right. rewrite bbind_fst, bbind_snd. cbn [emit fst snd app].
    rewrite deferred_fst, deferred_snd. done.
Qed.

Lemma covers_withFile (role : FileRole) (name : string)
    (cannotCreate : string → string → bench_error) (rest : B unit) :
  covers (withFile os_Create role name cannotCreate rest) rest.
Proof.
  destruct (withFile_cases role name cannotCreate rest)
    as [-> | [(err & _ & ->) | (_ & Hf & Hs)]].
  - apply covers_refl.
  - right. split; [by eexists | done].
  - left. rewrite Hf, Hs. split; [done|].
    change (comparedRequests (?e :: ?t)) with (comparedRequests t).
    change (modifiedAccountsCalls (?e :: ?t)) with (modifiedAccountsCalls t).
    rewrite comparedRequests_app, modifiedAccountsCalls_app.
    destruct (fst rest); cbn [comparedRequests modifiedAccountsCalls omap list_omap];
      rewrite ?app_nil_r; done.
Qed.

Lemma cleansUp_withFile (role : FileRole) (name : string)
    (cannotCreate : string → string → bench_error) (rest : B unit) :
  cleansUp os_Create rest →
  cleansUp os_Create (withFile os_Create role name cannotCreate rest).
Proof.
  intros Hrest.
  destruct (withFile_cases role name cannotCreate rest)
    as [-> | [(err & Hc & ->) | (Hc & Hf & Hs)]]; [done | |].
  - intros _. exists [EvCreate role name]. cbn. rewrite Hc.
    split; [done|]. constructor; [by intros [] | constructor].
  - intros Hfin. rewrite Hf in Hfin. rewrite Hs.
    destruct Hrest as (body & -> & Hbody); [done|].
    exists (EvCreate role name :: body). cbn [owed]. rewrite Hc. split.
    + destruct (fst rest); [| | |done]; cbn [app]; by rewrite <- !app_assoc.
    + constructor; [by intros []|done].
Qed.

End Wrappers.

Section Run.

Variables RndState Value : Type.
Variable os_Create : string → option string.
Variable ErigonBlockNumber : Reply.
Variable ErigonModifiedAccounts : Z → Z → ModifiedAccounts Value.
Variable rangeAccounts : ModifiedAccounts Value → list Address.
Variable getTopics : Value → list Hash.
Variable requestAndCompare : LogsRequest → option string.
Variable Int31n : RndState → Z → Z * RndState.
Variable rnd42 : RndState.
Variables (fuel : nat) (needCompare : bool) (blockFrom blockTo : Z).
Variables (recordFile errorFile : string).

Local Abbreviation run :=
  (BenchEthGetLogs os_Create ErigonBlockNumber ErigonModifiedAccounts
     rangeAccounts getTopics requestAndCompare Int31n rnd42 fuel needCompare
     blockFrom blockTo recordFile errorFile).
Local Abbreviation main :=
  (benchMain ErigonBlockNumber ErigonModifiedAccounts rangeAccounts getTopics
     requestAndCompare Int31n rnd42 fuel blockFrom blockTo).
Local Abbreviation loop :=
  (windows ErigonModifiedAccounts rangeAccounts getTopics requestAndCompare
     Int31n fuel blockFrom ((blockFrom + 100) mod uint64_modulus) blockTo rnd42).

Lemma benchMain_cases :
  (Err ErigonBlockNumber = None ∧ Error ErigonBlockNumber = None
   ∧ fst main = fst loop ∧ snd main = EvErigonBlockNumber :: snd loop)
  ∨ ((∃ e, fst main = Return e) ∧ snd main = [EvErigonBlockNumber]).
Proof.
  unfold benchMain. rewrite bbind_fst, bbind_snd. cbn [emit fst snd app].
  destruct (Err ErigonBlockNumber); [right; eauto|].
  destruct (Error ErigonBlockNumber); [right; eauto|].
  by left.
Qed.

Lemma covers_benchMain : covers main loop.
Proof.
  destruct benchMain_cases as [(_ & _ & Hf & Hs) | (He & Hs)].
  - left. rewrite Hf, Hs. done.
  - right. rewrite Hs. done.
Qed.

Lemma covers_run_main : covers run main.
Proof.
  unfold BenchEthGetLogs.
  eapply covers_trans; [apply covers_withFile|].
  eapply covers_trans; [apply covers_withFile|].
  apply covers_withResultsCh.
Qed.

Lemma covers_run : covers run loop.
Proof. eapply covers_trans; [apply covers_run_main | apply covers_benchMain]. Qed.

Lemma benchMain_rpc : Forall isRpc (snd main).
Proof.
  destruct benchMain_cases as [(_ & _ & _ & ->) | (_ & ->)].
  - constructor; [exact I | apply windows_rpc].
  - repeat constructor.
Qed.

Lemma run_cleansUp : cleansUp os_Create run.
Proof.
  unfold BenchEthGetLogs.
  do 2 apply cleansUp_withFile. apply cleansUp_withResultsCh.
  apply cleansUp_rpc, benchMain_rpc.
Qed.

End Run.

Section NoPanic.

Variables RndState Value : Type.
Variable ErigonModifiedAccounts : Z → Z → ModifiedAccounts Value.
Variable rangeAccounts : ModifiedAccounts Value → list Address.
Variable getTopics : Value → list Hash.
Variable requestAndCompare : LogsRequest → option string.
Variable Int31n : RndState → Z → Z * RndState.

Hypothesis Int31n_range : ∀ rnd n, 0 < n → 0 ≤ fst (Int31n rnd n) < n.

Lemma bbind_no_panic {A C} (m : B A) (k : A → B C) :
  fst m ≠ Panic → (∀ a, fst m = Next a → fst (k a) ≠ Panic) →
  fst (bbind m k) ≠ Panic.
Proof.
  intros Hm Hk. rewrite bbind_fst.
  destruct (fst m) as [a| | |]; [by apply Hk | done | done | done].
Qed.

Lemma compare_no_panic (request : LogsRequest) :
  fst (compare requestAndCompare request) ≠ Panic.
Proof.
  unfold compare. rewrite bbind_fst. cbn. by destruct (requestAndCompare request).
Qed.

Lemma compareTopics_no_panic (prevBn bn : Z) (account : Address)
    (topics : list Hash) :
  fst (compareTopics requestAndCompare prevBn bn account topics) ≠ Panic.
Proof.
  induction topics as [|topic rest IH]; [done|]. cbn [compareTopics].
  apply bbind_no_panic; [apply compare_no_panic | done].
Qed.

Lemma compareAccounts_no_panic (prevBn bn : Z) (mag : ModifiedAccounts Value)
    (accounts : list Address) (rnd : RndState) :
  Z.of_nat (length (getTopics (res_Result mag))) < 2 ^ 31 →
  fst (compareAccounts getTopics requestAndCompare Int31n prevBn bn mag accounts rnd)
  ≠ Panic.
Proof.
  intros Hlen. revert rnd.
  induction accounts as [|account rest IH]; intros rnd; [done|].
  cbn [compareAccounts]. apply bbind_no_panic; [|done].
  unfold compareAccount. apply bbind_no_panic; [apply compare_no_panic|].
  intros _ _. apply bbind_no_panic; [apply compareTopics_no_panic|].
  intros _ _.
  destruct (Nat.le_gt_cases 2 (length (getTopics (res_Result mag)))) as [Hge | Hlt].
  - by destruct (compareTwoTopics_spec RndState requestAndCompare Int31n
                   Int31n_range prevBn bn account _ rnd Hge Hlen)
      as (? & ? & ? & ? & _ & _ & _ & _ & ?).
  - unfold compareTwoTopics. destruct (Nat.leb_spec 2 (length (getTopics (res_Result mag)))); [lia | done].
Qed.

Hypothesis topics_fit :
  ∀ prevBn bn,
    Z.of_nat (length (getTopics (res_Result (ErigonModifiedAccounts prevBn bn))))
    < 2 ^ 31.

Lemma windows_no_panic (fuel : nat) (prevBn bn blockTo : Z) (rnd : RndState) :
  fst (windows ErigonModifiedAccounts rangeAccounts getTopics requestAndCompare
         Int31n fuel prevBn bn blockTo rnd) ≠ Panic.
Proof.
  revert prevBn bn rnd. induction fuel as [|fuel IH]; intros prevBn bn rnd; [done|].
  cbn [windows]. destruct (bn <? blockTo); [|done].
  apply bbind_no_panic; [|done].
  destruct (window_cases _ _ ErigonModifiedAccounts rangeAccounts getTopics
              requestAndCompare Int31n prevBn bn rnd)
    as [(_ & -> & _) | ([e ->] & _)]; [|done].
  by apply compareAccounts_no_panic.
Qed.

End NoPanic.

(** X10. Lines 124-131: for a list of at least two topics (and fewer than
    2^31), when [Int31n] returns a number of [[0, n)], the request with two
    topics is made, never panics, and its two topics stand at two different
    positions of the list. *)
Theorem compareTwoTopics_two_positions {RndState : Type}
    (requestAndCompare : LogsRequest → option string)
    (Int31n : RndState → Z → Z * RndState)
    (prevBn bn : Z) (account : Address) (topics : list Hash) (rnd : RndState) :
  (∀ rnd n, 0 < n → 0 ≤ fst (Int31n rnd n) < n) →
  (2 ≤ length topics)%nat →
  Z.of_nat (length topics) < 2 ^ 31 →
  ∃ i1 i2 topic1 topic2,
    i1 ≠ i2
    ∧ topics !! i1 = Some topic1
    ∧ topics !! i2 = Some topic2
    ∧ snd (compareTwoTopics requestAndCompare Int31n prevBn bn account topics rnd)
      = [EvRequestAndCompare
           (getLogs2 prevBn ((bn + 100000) mod uint64_modulus) account
              topic1 topic2)]
    ∧ fst (compareTwoTopics requestAndCompare Int31n prevBn bn account topics rnd)
      ≠ Panic.
Proof. intros Hr. by apply compareTwoTopics_spec. Qed.

Lemma counterInt31n_range (rnd n : Z) : 0 < n → 0 ≤ fst (counterInt31n rnd n) < n.
Proof. intros Hn. cbn. apply Z.mod_pos_bound. lia. Qed.

Lemma compareTwoTopics_two_positions_of_three :
  ∃ i1 i2 topic1 topic2,
    i1 ≠ i2
    ∧ [1; 2; 3]%N !! i1 = Some topic1
    ∧ [1; 2; 3]%N !! i2 = Some topic2
    ∧ snd (compareTwoTopics allEqual counterInt31n 0 100 10%N [1; 2; 3]%N 42)
      = [EvRequestAndCompare
           (getLogs2 0 ((100 + 100000) mod uint64_modulus) 10%N topic1 topic2)]
    ∧ fst (compareTwoTopics allEqual counterInt31n 0 100 10%N [1; 2; 3]%N 42)
      ≠ Panic.
Proof.
  apply (compareTwoTopics_two_positions allEqual counterInt31n 0 100 10%N
           [1; 2; 3]%N 42 counterInt31n_range); cbn; lia.
Defined.

Section BenchRun.

Variables RndState Value : Type.
Variable os_Create : string → option string.
Variable ErigonBlockNumber : Reply.
Variable ErigonModifiedAccounts : Z → Z → ModifiedAccounts Value.
Variable rangeAccounts : ModifiedAccounts Value → list Address.
Variable getTopics : Value → list Hash.
Variable requestAndCompare : LogsRequest → option string.
Variable Int31n : RndState → Z → Z * RndState.
Variable rnd42 : RndState.
Variables (fuel : nat) (needCompare : bool) (blockFrom blockTo : Z).
Variables (recordFile errorFile : string).

Local Abbreviation run :=
  (BenchEthGetLogs os_Create ErigonBlockNumber ErigonModifiedAccounts
     rangeAccounts getTopics requestAndCompare Int31n rnd42 fuel needCompare
     blockFrom blockTo recordFile errorFile).
Local Abbreviation main :=
  (benchMain ErigonBlockNumber ErigonModifiedAccounts rangeAccounts getTopics
     requestAndCompare Int31n rnd42 fuel blockFrom blockTo).
Local Abbreviation loop :=
  (windows ErigonModifiedAccounts rangeAccounts getTopics requestAndCompare
     Int31n fuel blockFrom ((blockFrom + 100) mod uint64_modulus) blockTo rnd42).
Local Abbreviation covered :=
  (covers_run RndState Value os_Create ErigonBlockNumber ErigonModifiedAccounts
     rangeAccounts getTopics requestAndCompare Int31n rnd42 fuel needCompare
     blockFrom blockTo recordFile errorFile).

(** X11. Lines 86-93 and 142: for a range that stays 100 below 2^64, the
    windows whose modified accounts are fetched are the first [m] of the
    consecutive windows [(blockFrom + 100 i, blockFrom + 100 (i + 1))], where
    [m] is at most [(blockTo - blockFrom - 1) / 100] and is that number when
    the function returns [nil]; with more fuel than windows the run ends. *)
Theorem BenchEthGetLogs_windows :
  0 ≤ blockFrom < uint64_modulus - 100 →
  blockTo ≤ uint64_modulus - 100 →
  ∃ m, 0 ≤ m ≤ Z.max 0 ((blockTo - blockFrom - 1) / 100)
       ∧ modifiedAccountsCalls (snd run)
         = (fun i => (blockFrom + 100 * i, blockFrom + 100 * (i + 1)))
             <$> seqZ 0 m
       ∧ (fst run = Next tt → m = Z.max 0 ((blockTo - blockFrom - 1) / 100))
       ∧ (Z.max 0 ((blockTo - blockFrom - 1) / 100) < Z.of_nat fuel →
          fst run ≠ Unfinished).
Proof.
  intros Hfrom Hto.
  destruct covered as [(Hf & _ & Hm) | ([e He] & _ & Hm)].
  - rewrite Hf, Hm.
    rewrite (Z.mod_small (blockFrom + 100)) by (unfold uint64_modulus in *; lia).
    destruct (windows_calls _ _ ErigonModifiedAccounts rangeAccounts getTopics
                requestAndCompare Int31n blockTo Hto fuel (blockFrom + 100) rnd42
                ltac:(lia)) as (m & Hle & Hcalls & Hn & Hfin).
    replace (blockFrom + 100 - 100) with blockFrom in * by lia.
    replace (windowCount (blockFrom + 100) blockTo)
      with ((blockTo - blockFrom - 1) / 100) in *
      by (unfold windowCount; f_equal; lia).
    exists m. split; [done|]. split.
    + rewrite Hcalls. apply list_fmap_ext. intros _ i _. f_equal; lia.
    + split; [|done]. intros Hnext. apply Hn. by eexists.
  - exists 0. rewrite Hm, He. split; [lia|]. done.
Qed.

(** X12. Lines 100-137: every request handed to [requestAndCompare] belongs
    to a window whose modified accounts have been fetched with no error: it
    is about an account of that window, starts at the first block of the
    window, and either ends at its last block [bn] with no topic, or at
    [bn + 10000] with one topic of [getTopics], or at [bn + 100000] with two
    of them. *)
Theorem BenchEthGetLogs_requests_in_window (request : LogsRequest) :
  request ∈ comparedRequests (snd run) →
  ∃ prevBn bn,
    (prevBn, bn) ∈ modifiedAccountsCalls (snd run)
    ∧ fetched ErigonModifiedAccounts prevBn bn
    ∧ ∃ account,
        account ∈ rangeAccounts (ErigonModifiedAccounts prevBn bn)
        ∧ windowRequest prevBn bn
            (getTopics (res_Result (ErigonModifiedAccounts prevBn bn)))
            account request.
Proof.
  destruct covered as [(_ & -> & ->) | (_ & -> & _)];
    [|by intros Hin; inversion Hin].
  intros Hin. by eapply windows_requests.
Qed.

(** X13. When the function returns [nil], the call of [eth_blockNumber] has
    succeeded and every call of [requestAndCompare] has returned [nil]: an
    error of either is never dropped. *)
Theorem BenchEthGetLogs_nil_sound :
  fst run = Next tt →
  Err ErigonBlockNumber = None
  ∧ Error ErigonBlockNumber = None
  ∧ ∀ request, request ∈ comparedRequests (snd run) →
               requestAndCompare request = None.
Proof.
  intros Hnil.
  assert (fst main = Next tt) as Hmain.
  { destruct (covers_run_main RndState Value os_Create ErigonBlockNumber
                ErigonModifiedAccounts rangeAccounts getTopics requestAndCompare
                Int31n rnd42 fuel needCompare blockFrom blockTo recordFile
                errorFile) as [(Hf & _) | ([e He] & _)]; congruence. }
  destruct (benchMain_cases RndState Value ErigonBlockNumber
              ErigonModifiedAccounts rangeAccounts getTopics requestAndCompare
              Int31n rnd42 fuel blockFrom blockTo)
    as [(He & He' & Hf & _) | ([e He] & _)]; [|congruence].
  split; [done|]. split; [done|].
  destruct covered as [(Hf' & -> & _) | ([e He''] & _)]; [|congruence].
  intros request Hin.
  eapply windows_requests; [exact Hin|]. exists tt. congruence.
Qed.

(** X14. When the function returns [nil] on a range that stays 100 below
    2^64, every window [(blockFrom + 100 i, blockFrom + 100 (i + 1))] with
    [i < (blockTo - blockFrom - 1) / 100] has been gone through: its
    modified accounts have been fetched and, for each of these accounts, the
    request with no topic and the request with each topic have been handed
    to [requestAndCompare]. *)
Theorem BenchEthGetLogs_nil_complete (i : Z) :
  0 ≤ blockFrom < uint64_modulus - 100 →
  blockTo ≤ uint64_modulus - 100 →
  fst run = Next tt →
  0 ≤ i < (blockTo - blockFrom - 1) / 100 →
  fetched ErigonModifiedAccounts (blockFrom + 100 * i) (blockFrom + 100 * (i + 1))
  ∧ ∀ account,
      account ∈ rangeAccounts
                  (ErigonModifiedAccounts (blockFrom + 100 * i)
                     (blockFrom + 100 * (i + 1))) →
      plain (getLogs (blockFrom + 100 * i) (blockFrom + 100 * (i + 1)) account)
      ∈ comparedRequests (snd run)
      ∧ ∀ topic,
          topic ∈ getTopics
                    (res_Result (ErigonModifiedAccounts (blockFrom + 100 * i)
                                   (blockFrom + 100 * (i + 1)))) →
          plain (getLogs1 (blockFrom + 100 * i)
                   ((blockFrom + 100 * (i + 1) + 10000) mod uint64_modulus)
                   account topic)
          ∈ comparedRequests (snd run).
Proof.
  intros Hfrom Hto Hnil Hi.
  destruct covered as [(Hf & -> & _) | ([e He] & _)]; [|congruence].
  rewrite Hf in Hnil. revert Hnil.
  rewrite (Z.mod_small (blockFrom + 100)) by (unfold uint64_modulus in *; lia).
  intros Hnil.
  pose proof (windows_complete _ _ ErigonModifiedAccounts rangeAccounts getTopics
                requestAndCompare Int31n blockTo Hto fuel (blockFrom + 100) rnd42
                i ltac:(lia)) as H.
  replace (blockFrom + 100 - 100) with blockFrom in H by lia.
  replace (blockFrom + 100 + 100 * i) with (blockFrom + 100 * (i + 1)) in H by lia.
  apply H; [by eexists|].
  unfold windowCount.
  replace (blockTo - (blockFrom + 100) + 99) with (blockTo - blockFrom - 1) by lia.
  done.
Qed.

(** X15. Lines 45-71 and every [return]: when the function returns or
    panics, it ends with the calls it owes and makes none of them before:
    for each file created a flush of its writer and then a close, and the
    closing of the results channel when [vegetaWrite] was started, the
    latest first. *)
Theorem BenchEthGetLogs_cleans_up :
  fst run ≠ Unfinished →
  ∃ body, snd run = body ++ owed os_Create body
          ∧ Forall (fun ev => ¬ isCleanup ev) body.
Proof. apply run_cleansUp. Qed.

(** X16. Line 88: on a range of at most 100 blocks the loop body never
    runs: no modified accounts are fetched and no request is compared. *)
Theorem BenchEthGetLogs_short_range :
  0 ≤ blockFrom < uint64_modulus - 100 →
  blockTo ≤ blockFrom + 100 →
  comparedRequests (snd run) = [] ∧ modifiedAccountsCalls (snd run) = [].
Proof.
  intros Hfrom Hto.
  destruct covered as [(_ & -> & ->) | (_ & -> & ->)]; [|done].
  rewrite (Z.mod_small (blockFrom + 100)) by (unfold uint64_modulus in *; lia).
  destruct fuel as [|fuel']; [done|].
  rewrite windows_stop by lia. done.
Qed.

(** X17. When [Int31n] returns a number of [[0, n)] and the lists of topics
    have fewer than 2^31 elements, the function never panics: the two
    positions drawn at lines 125-129 are positions of the list. *)
Theorem BenchEthGetLogs_no_panic :
  (∀ rnd n, 0 < n → 0 ≤ fst (Int31n rnd n) < n) →
  (∀ prevBn bn,
     Z.of_nat (length (getTopics (res_Result (ErigonModifiedAccounts prevBn bn))))
     < 2 ^ 31) →
  fst (BenchEthGetLogs os_Create ErigonBlockNumber ErigonModifiedAccounts
         rangeAccounts getTopics requestAndCompare Int31n rnd42 fuel needCompare
         blockFrom blockTo recordFile errorFile)
  ≠ Panic.
Proof.
  intros Hrange Hfit.
  destruct covered as [(-> & _) | ([e ->] & _)]; [|done].
  by apply windows_no_panic.
Qed.

(** X18. Lines 106-110, 117-121 and 133-137: a call of [requestAndCompare]
    that returns an error is the last call made, and the function returns
    that very error. *)
Theorem BenchEthGetLogs_first_error (request : LogsRequest) (err : string) :
  request ∈ comparedRequests (snd run) →
  requestAndCompare request = Some err →
  fst run = Return (CompareErr err)
  ∧ last (comparedRequests (snd run)) = Some request.
Proof.
  destruct covered as [(-> & -> & _) | (_ & -> & _)];
    [|by intros Hin; inversion Hin].
  apply windows_first_error.
Qed.

End BenchRun.

Lemma BenchEthGetLogs_windows_0_250 :
  (0 ≤ 0 < uint64_modulus - 100 ∧ 250 ≤ uint64_modulus - 100)
  ∧ ∃ m, 0 ≤ m ≤ Z.max 0 ((250 - 0 - 1) / 100)
         ∧ modifiedAccountsCalls (snd (benchScenario 5 0 250))
           = (fun i => (0 + 100 * i, 0 + 100 * (i + 1))) <$> seqZ 0 m
         ∧ (fst (benchScenario 5 0 250) = Next tt →
            m = Z.max 0 ((250 - 0 - 1) / 100))
         ∧ (Z.max 0 ((250 - 0 - 1) / 100) < Z.of_nat 5 →
            fst (benchScenario 5 0 250) ≠ Unfinished).
Proof.
  assert (0 ≤ 0 < uint64_modulus - 100) as H1 by (unfold uint64_modulus; lia).
  assert (250 ≤ uint64_modulus - 100) as H2 by (unfold uint64_modulus; lia).
  split; [done|].
  exact (BenchEthGetLogs_windows Z (list Hash) alwaysCreated (okReply [])
           benchModified mag_Result id allEqual counterInt31n 42 5%nat false
           0 250 "rec" "err" H1 H2).
Defined.

Lemma BenchEthGetLogs_requests_in_window_0_250 :
  plain (getLogs1 100 10200 10%N 2%N) ∈ comparedRequests (snd (benchScenario 5 0 250))
  ∧ ∃ prevBn bn,
      (prevBn, bn) ∈ modifiedAccountsCalls (snd (benchScenario 5 0 250))
      ∧ fetched benchModified prevBn bn
      ∧ ∃ account,
          account ∈ mag_Result (benchModified prevBn bn)
          ∧ windowRequest prevBn bn (id (res_Result (benchModified prevBn bn)))
              account (plain (getLogs1 100 10200 10%N 2%N)).
Proof.
  assert (plain (getLogs1 100 10200 10%N 2%N)
          ∈ comparedRequests (snd (benchScenario 5 0 250))) as Hin.
  { vm_compute. do 12 right. left. }
  split; [exact Hin|].
  exact (BenchEthGetLogs_requests_in_window Z (list Hash) alwaysCreated
           (okReply []) benchModified mag_Result id allEqual counterInt31n 42
           5%nat false 0 250 "rec" "err" _ Hin).
Defined.

Lemma BenchEthGetLogs_nil_sound_0_250 :
  fst (benchScenario 5 0 250) = Next tt
  ∧ Err (okReply []) = None
  ∧ Error (okReply []) = None
  ∧ ∀ request, request ∈ comparedRequests (snd (benchScenario 5 0 250)) →
               allEqual request = None.
Proof.
  assert (fst (benchScenario 5 0 250) = Next tt) as Hnil by (vm_compute; reflexivity).
  split; [exact Hnil|].
  exact (BenchEthGetLogs_nil_sound Z (list Hash) alwaysCreated (okReply [])
           benchModified mag_Result id allEqual counterInt31n 42 5%nat false
           0 250 "rec" "err" Hnil).
Defined.

Lemma BenchEthGetLogs_nil_complete_0_250 :
  (0 ≤ 0 < uint64_modulus - 100
   ∧ 250 ≤ uint64_modulus - 100
   ∧ fst (benchScenario 5 0 250) = Next tt
   ∧ 0 ≤ 1 < (250 - 0 - 1) / 100)
  ∧ fetched benchModified (0 + 100 * 1) (0 + 100 * (1 + 1))
  ∧ ∀ account,
      account ∈ mag_Result (benchModified (0 + 100 * 1) (0 + 100 * (1 + 1))) →
      plain (getLogs (0 + 100 * 1) (0 + 100 * (1 + 1)) account)
      ∈ comparedRequests (snd (benchScenario 5 0 250))
      ∧ ∀ topic,
          topic ∈ id (res_Result (benchModified (0 + 100 * 1) (0 + 100 * (1 + 1)))) →
          plain (getLogs1 (0 + 100 * 1)
                   ((0 + 100 * (1 + 1) + 10000) mod uint64_modulus) account topic)
          ∈ comparedRequests (snd (benchScenario 5 0 250)).
Proof.
  assert (0 ≤ 0 < uint64_modulus - 100) as H1 by (unfold uint64_modulus; lia).
  assert (250 ≤ uint64_modulus - 100) as H2 by (unfold uint64_modulus; lia).
  assert (fst (benchScenario 5 0 250) = Next tt) as H3 by (vm_compute; reflexivity).
  assert (0 ≤ 1 < (250 - 0 - 1) / 100) as H4 by (vm_compute; split; [discriminate | reflexivity]).
  split; [done|].
  exact (BenchEthGetLogs_nil_complete Z (list Hash) alwaysCreated (okReply [])
           benchModified mag_Result id allEqual counterInt31n 42 5%nat false
           0 250 "rec" "err" 1 H1 H2 H3 H4).
Defined.

Lemma BenchEthGetLogs_cleans_up_0_250 :
  fst (benchScenario 5 0 250) ≠ Unfinished
  ∧ ∃ body, snd (benchScenario 5 0 250) = body ++ owed alwaysCreated body
            ∧ Forall (fun ev => ¬ isCleanup ev) body.
Proof.
  assert (fst (benchScenario 5 0 250) ≠ Unfinished) as H by (vm_compute; discriminate).
  split; [exact H|].
  exact (BenchEthGetLogs_cleans_up Z (list Hash) alwaysCreated (okReply [])
           benchModified mag_Result id allEqual counterInt31n 42 5%nat false
           0 250 "rec" "err" H).
Defined.

Lemma BenchEthGetLogs_short_range_0_100 :
  (0 ≤ 0 < uint64_modulus - 100 ∧ 100 ≤ 0 + 100)
  ∧ comparedRequests (snd (benchScenario 5 0 100)) = []
  ∧ modifiedAccountsCalls (snd (benchScenario 5 0 100)) = [].
Proof.
  assert (0 ≤ 0 < uint64_modulus - 100) as H1 by (unfold uint64_modulus; lia).
  assert (100 ≤ 0 + 100) as H2 by lia.
  split; [done|].
  exact (BenchEthGetLogs_short_range Z (list Hash) alwaysCreated (okReply [])
           benchModified mag_Result id allEqual counterInt31n 42 5%nat false
           0 100 "rec" "err" H1 H2).
Defined.

Lemma BenchEthGetLogs_no_panic_0_250 : fst (benchScenario 5 0 250) ≠ Panic.
Proof.
  apply (BenchEthGetLogs_no_panic Z (list Hash) alwaysCreated (okReply [])
           benchModified mag_Result id allEqual counterInt31n 42 5%nat false
           0 250 "rec" "err" counterInt31n_range).
  intros prevBn bn. cbn. lia.
Defined.

Lemma BenchEthGetLogs_first_error_topic_2 :
  fst (BenchEthGetLogs alwaysCreated (okReply []) benchModified mag_Result id
         mismatchOn2 counterInt31n 42 5 false 0 250 "rec" "err")
  = Return (CompareErr "mismatch")
  ∧ last (comparedRequests
            (snd (BenchEthGetLogs alwaysCreated (okReply []) benchModified
                    mag_Result id mismatchOn2 counterInt31n 42 5 false 0 250
                    "rec" "err")))
    = Some (plain (getLogs1 0 10100 10%N 2%N)).
Proof.
  apply (BenchEthGetLogs_first_error Z (list Hash) alwaysCreated (okReply [])
           benchModified mag_Result id mismatchOn2 counterInt31n 42 5%nat false
           0 250 "rec" "err" (plain (getLogs1 0 10100 10%N 2%N)) "mismatch");
    [vm_compute; do 2 right; left | reflexivity].
Defined.
